(** * find_bad.py: the bad-label classifier

    A shallow embedding of [contains], [area], [all_in_border],
    [is_sum_larger], [check], [PATTERN], [run_local] and [run_s3] of
    [find_bad.py], and the properties of the classifier and of the two scans
    proved over it.

    Conventions of the embedding.
    - Python values produced by [json.loads] are the constructors of [json];
      a JSON object is a Python dict, modelled as a finite map from keys to
      values.
    - Numbers are kept abstract in the class [Number]: the functions only
      add, subtract, multiply and compare them.  Everything that is proved
      without arithmetic laws therefore holds for Python's ints and IEEE
      floats alike.  [Qc_number] instantiates the class with exact rationals
      and [float_number] with IEEE binary64; the laws of exact arithmetic are
      the class [ExactNumber].  The operations of the class are total: an
      int too large to be converted to a float, for which [int * float]
      raises [OverflowError], is outside the model.
    - An exception is the [Err] case of [result]; [check] also writes debug
      messages, so it runs in a state-and-error monad over the [logger].
    - [json.loads] itself and the ordering of operands that are not both
      numbers belong to the interpreter, not to this program: they are the
      fields of the class [Runtime].
    - The scans write to a [console] and may fail; what they read, the
      listing of a directory or of a bucket, is their argument, and
      [os.path] and the clock are the fields of the class [Platform]. *)

From stdpp Require Import gmap strings list pretty.
From Stdlib Require Import Ascii QArith Qcanon PrimFloat.

#[local] Close Scope Qc_scope.
#[local] Close Scope Q_scope.

#[local] Set Warnings "-register-all".

(** ** Exceptions *)

(** The subscript of [obj[k]]: a dict key or a sequence index. *)
Inductive key : Type :=
  | KStr (s : string)
  | KInt (i : nat).

Inductive exn : Type :=
  | ValueError
  | KeyError (k : key)
  | IndexError
  | TypeError.

Inductive result (A : Type) : Type :=
  | Ok (a : A)
  | Err (e : exn).
Arguments Ok {A} a.
Arguments Err {A} e.

#[global] Instance result_ret : MRet result := λ A a, Ok a.
#[global] Instance result_bind : MBind result := λ A B f r,
  match r with
  | Ok a => f a
  | Err e => Err e
  end.

Definition is_Ok {A} (r : result A) : Prop := ∃ a, r = Ok a.
Definition is_Err {A} (r : result A) : Prop := ∃ e, r = Err e.

(** ** Numbers *)

Class Number (num : Type) : Type := {
  zero : num;                     (* the literal 0 *)
  one : num;                      (* True used as a number *)
  lit_0_05 : num;                 (* the literal 0.05 *)
  lit_0_5 : num;                  (* the literal 0.5 *)
  add : num → num → num;
  sub : num → num → num;
  mul : num → num → num;
  gtb : num → num → bool;         (* x > y *)
  ltb : num → num → bool          (* x < y *)
}.

(** Exact rational arithmetic. *)
#[global] Instance Qc_number : Number Qc := {|
  zero := 0%Qc;
  one := 1%Qc;
  lit_0_05 := Q2Qc (5 # 100)%Q;
  lit_0_5 := Q2Qc (1 # 2)%Q;
  add := Qcplus;
  sub := Qcminus;
  mul := Qcmult;
  gtb := λ x y, bool_decide (y < x)%Qc;
  ltb := λ x y, bool_decide (x < y)%Qc
|}.

(** The laws of exact arithmetic that the order-independence of the area
    rule needs: sums do not depend on the order of the summands, and adding
    a number that is not negative does not take a sum back under a bound. *)
Class ExactNumber (num : Type) `{Number num} : Prop := {
  add_comm_exact : ∀ x y : num, add x y = add y x;
  add_assoc_exact : ∀ x y z : num, add x (add y z) = add (add x y) z;
  gtb_add_nonneg : ∀ s a t : num,
    ltb a zero = false → gtb s t = true → gtb (add s a) t = true
}.

(** Strict comparison: no number is greater or less than itself. *)
Class StrictNumber (num : Type) `{Number num} : Prop := {
  gtb_irrefl : ∀ x : num, gtb x x = false;
  ltb_irrefl : ∀ x : num, ltb x x = false
}.

(** ** JSON values *)

Section Json.
Context {num : Type}.

Inductive json : Type :=
  | JNull
  | JBool (b : bool)
  | JNum (n : num)
  | JStr (s : string)
  | JArr (l : list json)
  | JObj (m : gmap string json).
End Json.
Arguments json num : clear implicits.

(** What the interpreter decides: the parse of the text, and [a > b] and
    [a < b] when [a] and [b] are not both numbers (Python 2 orders such
    values by type, Python 3 raises [TypeError] for most of them). *)
Class Runtime (num : Type) : Type := {
  json_loads : string → result (json num);
  gt_objects : json num → json num → result bool;
  lt_objects : json num → json num → result bool
}.

(** ** The logger *)

Record logger : Type := Logger {
  debug_enabled : bool;           (* set by [logging.basicConfig(level=DEBUG)] *)
  emitted : list string           (* what was written so far, oldest first *)
}.

(** Computations that may raise and may write to the log. *)
Definition M (A : Type) : Type := logger → result A * logger.

#[global] Instance M_ret : MRet M := λ A a lg, (Ok a, lg).
#[global] Instance M_bind : MBind M := λ A B f m lg,
  match m lg with
  | (Ok a, lg') => f a lg'
  | (Err e, lg') => (Err e, lg')
  end.

Definition raise_or_return {A} (r : result A) : M A := λ lg, (r, lg).

(** [logging.debug(msg)] *)
Definition logging_debug (msg : string) : M unit := λ lg,
  (Ok (),
   if debug_enabled lg
   then Logger (debug_enabled lg) (emitted lg ++ [msg])
   else lg).

Section Classifier.
Context {num : Type} `{!Number num} `{!Runtime num}.

Abbreviation json := (json num).

(** *** Python's operations on JSON values *)

(** A bool is an int in Python: [True] is 1 and [False] is 0. *)
Definition as_number (v : json) : option num :=
  match v with
  | JNum n => Some n
  | JBool b => Some (if b then one else zero)
  | _ => None
  end.

(** [a + b], [a - b] and [a * b].  In this program every [+] and [*] has a
    result of arithmetic or a float literal as one operand, and for such
    operands, as for every [-], Python raises [TypeError] unless both are
    numbers. *)
Definition py_arith (op : num → num → num) (a b : json) : result json :=
  match as_number a, as_number b with
  | Some x, Some y => Ok (JNum (op x y))
  | _, _ => Err TypeError
  end.

Definition py_add : json → json → result json := py_arith add.
Definition py_sub : json → json → result json := py_arith sub.
Definition py_mul : json → json → result json := py_arith mul.

Definition py_gt (a b : json) : result bool :=
  match as_number a, as_number b with
  | Some x, Some y => Ok (gtb x y)
  | _, _ => gt_objects a b
  end.

Definition py_lt (a b : json) : result bool :=
  match as_number a, as_number b with
  | Some x, Some y => Ok (ltb x y)
  | _, _ => lt_objects a b
  end.

Definition chars (s : string) : list json :=
  (λ c, JStr (String c EmptyString)) <$> String.list_ascii_of_string s.

(** [obj[k]] *)
Definition getitem (obj : json) (k : key) : result json :=
  match obj, k with
  | JObj m, KStr s =>
      match m !! s with
      | Some v => Ok v
      | None => Err (KeyError k)
      end
  | JObj m, KInt _ => Err (KeyError k)
  | JArr l, KInt i =>
      match l !! i with
      | Some v => Ok v
      | None => Err IndexError
      end
  | JStr s, KInt i =>
      match chars s !! i with
      | Some v => Ok v
      | None => Err IndexError
      end
  | _, _ => Err TypeError
  end.

(** [len(obj)] *)
Definition len (obj : json) : result nat :=
  match obj with
  | JArr l => Ok (length l)
  | JStr s => Ok (String.length s)
  | JObj m => Ok (size m)
  | _ => Err TypeError
  end.

(** The items a [for] loop or an unpacking assignment draws from [obj]:
    the elements of a list, the characters of a string, the keys of a
    dict. *)
Definition iter (obj : json) : result (list json) :=
  match obj with
  | JArr l => Ok l
  | JStr s => Ok (chars s)
  | JObj m => Ok (JStr <$> (map_to_list m).*1)
  | _ => Err TypeError
  end.

(** [x0, y0, x1, y1 = obj] *)
Definition unpack4 (obj : json) : result (json * json * json * json) :=
  items ← iter obj;
  match items with
  | [a; b; c; d] => Ok (a, b, c, d)
  | _ => Err ValueError
  end.

(** *** The classifier *)

(** [contains(a, b)]: true if [a] is in [b].  The operands of [and] are
    evaluated from left to right, and only until one is false. *)
Definition contains (a b : json) : result bool :=
  a0 ← getitem a (KInt 0); b0 ← getitem b (KInt 0); c0 ← py_gt a0 b0;
  if negb c0 then Ok false else
  a2 ← getitem a (KInt 2); b2 ← getitem b (KInt 2); c2 ← py_lt a2 b2;
  if negb c2 then Ok false else
  a1 ← getitem a (KInt 1); b1 ← getitem b (KInt 1); c1 ← py_gt a1 b1;
  if negb c1 then Ok false else
  a3 ← getitem a (KInt 3); b3 ← getitem b (KInt 3); py_lt a3 b3.

(** [area(a)] *)
Definition area (a : json) : result json :=
  a2 ← getitem a (KInt 2); a0 ← getitem a (KInt 0); w ← py_sub a2 a0;
  a3 ← getitem a (KInt 3); a1 ← getitem a (KInt 1); h ← py_sub a3 a1;
  py_mul w h.

(** The body of the [for] loop of [all_in_border], with the two flags as
    they stand on entry. *)
Fixpoint all_in_border_loop (not_top_border not_bottom_border : json)
    (top bottom : bool) (texts : list json) : result bool :=
  match texts with
  | [] => Ok true
  | text :: rest =>
      bb ← getitem text (KStr "TextBB");
      c ← contains bb not_top_border;
      let top := if c : bool then true else top in
      bb ← getitem text (KStr "TextBB");
      c ← contains bb not_bottom_border;
      let bottom := if c : bool then true else bottom in
      if top && bottom then Ok false
      else all_in_border_loop not_top_border not_bottom_border top bottom rest
  end.

(** [all_in_border(bounds, texts)] *)
Definition all_in_border (bounds texts : json) : result bool :=
  unpacked ← unpack4 bounds;
  let '(x0, y0, x1, y1) := unpacked in
  h ← py_sub y1 y0;
  d ← py_mul h (JNum lit_0_05);
  y ← py_add y0 d;
  let not_top_border := JArr [x0; y; x1; y1] in
  d ← py_mul h (JNum lit_0_05);
  y ← py_sub y1 d;
  let not_bottom_border := JArr [x0; y0; x1; y] in
  items ← iter texts;
  all_in_border_loop not_top_border not_bottom_border false false items.

(** The [for] loop of [is_sum_larger], entered with [sum_so_far]. *)
Fixpoint is_sum_larger_loop (max_area sum_so_far : json)
    (texts : list json) : result bool :=
  match texts with
  | [] => Ok false
  | text :: rest =>
      bb ← getitem text (KStr "TextBB");
      a ← area bb;
      sum_so_far ← py_add sum_so_far a;
      c ← py_gt sum_so_far max_area;
      if c : bool then Ok true
      else is_sum_larger_loop max_area sum_so_far rest
  end.

(** [is_sum_larger(max_area, texts)] *)
Definition is_sum_larger (max_area texts : json) : result bool :=
  items ← iter texts;
  is_sum_larger_loop max_area (JNum zero) items.

(** [check(json_data)]: [True] is a bad label. *)
Definition check (json_data : string) : M bool :=
  data ← raise_or_return (json_loads json_data);
  texts ← raise_or_return (getitem data (KStr "ImageText"));
  n ← raise_or_return (len texts);
  if bool_decide (n = 0) then
    logging_debug "No text";; mret true
  else
  n ← raise_or_return (len texts);
  if bool_decide (n = 1) then
    logging_debug "One text label";; mret true
  else
  bounds ← raise_or_return (getitem data (KStr "ImageBB"));
  b ← raise_or_return (all_in_border bounds texts);
  if b : bool then
    logging_debug "All text is in upper or lower border";; mret true
  else
  bounds ← raise_or_return (getitem data (KStr "ImageBB"));
  a ← raise_or_return (area bounds);
  max_area ← raise_or_return (py_mul a (JNum lit_0_5));
  b ← raise_or_return (is_sum_larger max_area texts);
  if b : bool then
    logging_debug "Almost everything is text";; mret true
  else
  mret false.

End Classifier.

(** ** Well-formed records

    The input format: [{"ImageBB": [x0, y0, x1, y1],
    "ImageText": [{"TextBB": [x0, y0, x1, y1], ...}, ...], ...}];
    further fields are allowed. *)

Record box (num : Type) : Type := Box {
  x0 : num;
  y0 : num;
  x1 : num;
  y1 : num
}.
Arguments Box {num} x0 y0 x1 y1.
Arguments x0 {num} b.
Arguments y0 {num} b.
Arguments x1 {num} b.
Arguments y1 {num} b.

Record text (num : Type) : Type := Text {
  TextBB : box num;
  text_fields : gmap string (json num)      (* the other fields of the item *)
}.
Arguments Text {num} TextBB text_fields.
Arguments TextBB {num} t.
Arguments text_fields {num} t.

Record record (num : Type) : Type := Record_ {
  ImageBB : box num;
  ImageText : list (text num);
  record_fields : gmap string (json num)    (* the other fields of the record *)
}.
Arguments Record_ {num} ImageBB ImageText record_fields.
Arguments ImageBB {num} r.
Arguments ImageText {num} r.
Arguments record_fields {num} r.

Section Records.
Context {num : Type} `{!Number num}.

Definition box_json (b : box num) : json num :=
  JArr [JNum (x0 b); JNum (y0 b); JNum (x1 b); JNum (y1 b)].

Definition text_json (t : text num) : json num :=
  JObj (<["TextBB" := box_json (TextBB t)]> (text_fields t)).

Definition texts_json (ts : list (text num)) : json num :=
  JArr (text_json <$> ts).

Definition record_json (r : record num) : json num :=
  JObj (<["ImageBB" := box_json (ImageBB r)]>
          (<["ImageText" := texts_json (ImageText r)]> (record_fields r))).

(** *** The rules in the words of the specification *)

(** [a] is strictly inside [b] on all four edges. *)
Definition strictly_inside (a b : box num) : bool :=
  gtb (x0 a) (x0 b) && ltb (x1 a) (x1 b) &&
  gtb (y0 a) (y0 b) && ltb (y1 a) (y1 b).

(** [(a.x1 - a.x0) * (a.y1 - a.y0)] *)
Definition box_area (a : box num) : num :=
  mul (sub (x1 a) (x0 a)) (sub (y1 a) (y0 a)).

(** 5% of the height [h = y1 - y0] of the bounds. *)
Definition border_height (bounds : box num) : num :=
  mul (sub (y1 bounds) (y0 bounds)) lit_0_05.

(** The bounds without their top 5% strip. *)
Definition not_top_region (bounds : box num) : box num :=
  Box (x0 bounds) (add (y0 bounds) (border_height bounds))
      (x1 bounds) (y1 bounds).

(** The bounds without their bottom 5% strip. *)
Definition not_bottom_region (bounds : box num) : box num :=
  Box (x0 bounds) (y0 bounds)
      (x1 bounds) (sub (y1 bounds) (border_height bounds)).

(** The top 5% strip itself. *)
Definition top_strip (bounds : box num) : box num :=
  Box (x0 bounds) (y0 bounds)
      (x1 bounds) (add (y0 bounds) (border_height bounds)).

(** Some text box is strictly inside the region. *)
Definition some_text_inside (region : box num) (ts : list (text num)) : bool :=
  existsb (λ t, strictly_inside (TextBB t) region) ts.

(** No text box outside the top strip together with a text box outside
    the bottom strip. *)
Definition confined_to_border (bounds : box num) (ts : list (text num)) : bool :=
  negb (some_text_inside (not_top_region bounds) ts &&
        some_text_inside (not_bottom_region bounds) ts).

(** The sum of the areas of the text boxes, accumulated in their order
    from 0. *)
Definition total_area (ts : list (text num)) : num :=
  foldl (λ s t, add s (box_area (TextBB t))) zero ts.

(** Half the area of the bounds. *)
Definition half_area (bounds : box num) : num :=
  mul (box_area bounds) lit_0_5.

(** The running sum over the first [k] text boxes exceeds the bound, for
    some [k] from 1 to the number of text boxes. *)
Definition running_sum_exceeds (bound : num) (ts : list (text num)) : bool :=
  existsb (λ k, gtb (total_area (take k ts)) bound) (seq 1 (length ts)).

(** The four rules, in their order; the first that matches decides, with
    its diagnostic. *)
Definition rule_chain (r : record num) : bool * option string :=
  if bool_decide (length (ImageText r) = 0) then
    (true, Some "No text")
  else if bool_decide (length (ImageText r) = 1) then
    (true, Some "One text label")
  else if confined_to_border (ImageBB r) (ImageText r) then
    (true, Some "All text is in upper or lower border")
  else if running_sum_exceeds (half_area (ImageBB r)) (ImageText r) then
    (true, Some "Almost everything is text")
  else
    (false, None).

Definition verdict (r : record num) : bool := (rule_chain r).1.

(** The area of the text box is not negative. *)
Definition nonneg_area (t : text num) : Prop :=
  ltb (box_area (TextBB t)) zero = false.

(** The log after the diagnostic of the deciding rule, if any. *)
Definition log_diagnostic (r : record num) (lg : logger) : logger :=
  match (rule_chain r).2 with
  | Some msg => (logging_debug msg lg).2
  | None => lg
  end.

End Records.

(** ** Malformed input *)

Section Malformed.
Context {num : Type} `{!Runtime num}.

(** The text is not JSON. *)
Definition invalid_json (json_data : string) : Prop :=
  ∃ e, json_loads json_data = Err e.

(** The text is a JSON object without the key [k]. *)
Definition missing_key (k : string) (json_data : string) : Prop :=
  ∃ m, json_loads json_data = Ok (JObj m) ∧ m !! k = None.

Definition malformed (json_data : string) : Prop :=
  invalid_json json_data ∨
  missing_key "ImageText" json_data ∨
  missing_key "ImageBB" json_data.

(** The text is a JSON object whose [ImageText] has length 0 or 1. *)
Definition few_texts (json_data : string) : Prop :=
  ∃ m texts n,
    json_loads json_data = Ok (JObj m) ∧
    m !! "ImageText" = Some texts ∧
    len texts = Ok n ∧ n ≤ 1.
End Malformed.

(** ** Identifier extraction

    [PATTERN = re.compile('(.*-Figure-[0-9]+).*\.json')].  The fragment of
    Python's regular expressions that the pattern uses: literal text, greedy
    repetition of a character class, sequencing and one capture group,
    matched by backtracking as [re] does. *)

Inductive charclass : Type :=
  | AnyChar        (* [.]: any character except a newline *)
  | Digit.         (* [0-9] *)

Inductive regex : Type :=
  | Lit (s : string)
  | Star (c : charclass)           (* [c*], greedy *)
  | Plus (c : charclass)           (* [c+], greedy *)
  | Seq (r1 r2 : regex)
  | Group (r : regex).             (* [(r)], group 1 *)

Definition newline : ascii := "010"%char.

Definition in_class (c : charclass) (a : ascii) : bool :=
  match c with
  | AnyChar => negb (Ascii.eqb a newline)
  | Digit => (48 <=? nat_of_ascii a)%nat && (nat_of_ascii a <=? 57)%nat
  end.

(** The rest of [s] after the literal [lit], if [s] starts with it. *)
Fixpoint match_lit (lit s : list ascii) : option (list ascii) :=
  match lit, s with
  | [], _ => Some s
  | a :: lit', b :: s' => if Ascii.eqb a b then match_lit lit' s' else None
  | _ :: _, [] => None
  end.

(** Greedy repetition: take as many characters of the class as there are,
    and give characters back one at a time while the continuation fails. *)
Fixpoint match_star {R} (c : charclass) (s : list ascii)
    (k : list ascii → option R) : option R :=
  match s with
  | a :: s' =>
      if in_class c a then
        match match_star c s' k with
        | Some r => Some r
        | None => k s
        end
      else k s
  | [] => k s
  end.

(** [match_regex r g s k]: match [r] at the head of [s], then continue with
    [k] on the text of group 1 ([g] before [r]) and the rest of [s]. *)
Fixpoint match_regex {R} (r : regex) (g : option (list ascii)) (s : list ascii)
    (k : option (list ascii) → list ascii → option R) : option R :=
  match r with
  | Lit l =>
      match match_lit (String.list_ascii_of_string l) s with
      | Some s' => k g s'
      | None => None
      end
  | Star c => match_star c s (k g)
  | Plus c =>
      match s with
      | a :: s' => if in_class c a then match_star c s' (k g) else None
      | [] => None
      end
  | Seq r1 r2 => match_regex r1 g s (λ g' s', match_regex r2 g' s' k)
  | Group r' =>
      match_regex r' g s (λ _ s', k (Some (take (length s - length s') s)) s')
  end.

(** A match that starts at the head of [s]: the text of group 1. *)
Definition match_here (r : regex) (s : list ascii) : option (option (list ascii)) :=
  match_regex r None s (λ g _, Some g).

(** The leftmost match in [s]. *)
Fixpoint search_from (r : regex) (s : list ascii) : option (option (list ascii)) :=
  match match_here r s with
  | Some g => Some g
  | None =>
      match s with
      | _ :: s' => search_from r s'
      | [] => None
      end
  end.

(** [r.search(s)], as the value of [group(1)] of the match object. *)
Definition search (r : regex) (s : string) : option (option string) :=
  match search_from r (String.list_ascii_of_string s) with
  | Some g => Some (String.string_of_list_ascii <$> g)
  | None => None
  end.

Definition PATTERN : regex :=
  Seq (Group (Seq (Star AnyChar) (Seq (Lit "-Figure-") (Plus Digit))))
      (Seq (Star AnyChar) (Lit ".json")).

(** What [run_local] and [run_s3] print for a JSON file called [name] whose
    contents [check] has classified: [groups.group(1)] if the label is bad
    and the name matches. *)
Definition printed (name : string) (bad : bool) : list (option string) :=
  if bad then
    match search PATTERN name with
    | Some g => [g]
    | None => []
    end
  else [].

(** The identifier extracted from a file name. *)
Definition identifier (name : string) : option string :=
  match search PATTERN name with
  | Some (Some id) => Some id
  | _ => None
  end.

(** [d] is a non-empty run of digits. *)
Definition digit_run (d : string) : Prop :=
  d ≠ EmptyString ∧ Forall (λ a, in_class Digit a = true) (String.list_ascii_of_string d).

(** [s] has no line break. *)
Definition one_line (s : string) : Prop :=
  Forall (λ a, in_class AnyChar a = true) (String.list_ascii_of_string s).

(** [s] does not start with a digit. *)
Definition no_leading_digit (s : string) : Prop :=
  match s with
  | String a _ => in_class Digit a = false
  | EmptyString => True
  end.

(** [s] has the text [.json] somewhere. *)
Definition has_json_suffix_text (s : string) : Prop :=
  ∃ mid post : string, s = mid +:+ ".json" +:+ post.

(** The same on lists of characters: [s] is [pre], the marker [-Figure-],
    the digits [d] and [rest], where [pre] has no line break and [rest] has
    [.json] on its first line. *)
Definition figure_marker : list ascii := String.list_ascii_of_string "-Figure-".
Definition json_ext : list ascii := String.list_ascii_of_string ".json".

Definition figure_split (s pre d rest : list ascii) : Prop :=
  s = pre ++ figure_marker ++ d ++ rest ∧
  d ≠ [] ∧
  Forall (λ a, in_class Digit a = true) d ∧
  Forall (λ a, in_class AnyChar a = true) pre ∧
  ∃ mid post, rest = mid ++ json_ext ++ post ∧
              Forall (λ a, in_class AnyChar a = true) mid.

(** [PATTERN] unfolded: what is left to match after group 1, which started
    at [s]. *)
Definition after_group (s s3 : list ascii) : option (option (list ascii)) :=
  match_star AnyChar s3 (λ s4,
    match match_lit json_ext s4 with
    | Some _ => Some (Some (take (length s - length s3) s))
    | None => None
    end).

(** What is left to match after the [.*] of group 1. *)
Definition after_prefix (s s1 : list ascii) : option (option (list ascii)) :=
  match match_lit figure_marker s1 with
  | Some s2 =>
      match s2 with
      | a :: s2' =>
          if in_class Digit a then match_star Digit s2' (after_group s)
          else None
      | [] => None
      end
  | None => None
  end.

(** ** Two instances for the examples *)

(** IEEE binary64 arithmetic, as Python's floats have it. *)
#[local] Set Warnings "-inexact-float".
#[global] Instance float_number : Number PrimFloat.float := {|
  zero := 0%float;
  one := 1%float;
  lit_0_05 := 0.05%float;
  lit_0_5 := 0.5%float;
  add := PrimFloat.add;
  sub := PrimFloat.sub;
  mul := PrimFloat.mul;
  gtb := λ x y, PrimFloat.ltb y x;
  ltb := PrimFloat.ltb
|}.

(** A runtime whose [json.loads] knows the documents of a table and rejects
    every other text, and which refuses to order values that are not
    numbers. *)
Definition table_runtime {num : Type} (documents : list (string * json num)) :
    Runtime num := {|
  json_loads := λ s,
    match (list_to_map documents : gmap string (json num)) !! s with
    | Some v => Ok v
    | None => Err ValueError
    end;
  gt_objects := λ _ _, Err TypeError;
  lt_objects := λ _ _, Err TypeError
|}.

(** *** Documents *)

Definition quoted (s : string) : string :=
  String "034" (s +:+ String "034" EmptyString).

(** [{"TextBB": bb}] *)
Definition item_text (bb : string) : string :=
  "{" +:+ quoted "TextBB" +:+ ": " +:+ bb +:+ "}".

(** [{"ImageBB": bb, "ImageText": [items]}] *)
Definition record_text (bb items : string) : string :=
  "{" +:+ quoted "ImageBB" +:+ ": " +:+ bb +:+ ", " +:+
  quoted "ImageText" +:+ ": [" +:+ items +:+ "]}".

(** [{"ImageText": [items]}] *)
Definition no_bounds_text (items : string) : string :=
  "{" +:+ quoted "ImageText" +:+ ": [" +:+ items +:+ "]}".

Definition int (z : Z) : Qc := Q2Qc (inject_Z z).

Definition int_box (a b c d : Z) : box Qc := Box (int a) (int b) (int c) (int d).

Definition plain_text {num : Type} (b : box num) : text num := Text b ∅.

Definition plain_record {num : Type} (b : box num) (ts : list (box num)) : record num :=
  Record_ b (plain_text <$> ts) ∅.

(** Two small boxes in the middle of a 100 by 100 image. *)
Definition two_small : record Qc :=
  plain_record (int_box 0 0 100 100) [int_box 10 10 20 20; int_box 30 30 40 40].

Definition two_small_text : string :=
  record_text "[0, 0, 100, 100]"
    (item_text "[10, 10, 20, 20]" +:+ ", " +:+ item_text "[30, 30, 40, 40]").

Definition two_small_swapped : record Qc :=
  plain_record (int_box 0 0 100 100) [int_box 30 30 40 40; int_box 10 10 20 20].

Definition two_small_swapped_text : string :=
  record_text "[0, 0, 100, 100]"
    (item_text "[30, 30, 40, 40]" +:+ ", " +:+ item_text "[10, 10, 20, 20]").

(** A large box in the middle and a box of negative area (its [x1] is left
    of its [x0]), in both orders. *)
Definition large_then_negative : record Qc :=
  plain_record (int_box 0 0 100 100) [int_box 10 10 90 75; int_box 90 10 10 20].

Definition large_then_negative_text : string :=
  record_text "[0, 0, 100, 100]"
    (item_text "[10, 10, 90, 75]" +:+ ", " +:+ item_text "[90, 10, 10, 20]").

Definition negative_then_large : record Qc :=
  plain_record (int_box 0 0 100 100) [int_box 90 10 10 20; int_box 10 10 90 75].

Definition negative_then_large_text : string :=
  record_text "[0, 0, 100, 100]"
    (item_text "[90, 10, 10, 20]" +:+ ", " +:+ item_text "[10, 10, 90, 75]").

(** A large box in the middle and a box of negative area in the top strip;
    the two areas sum to 4906, the first alone is 5200. *)
Definition middle_and_strip : record Qc :=
  plain_record (int_box 0 0 100 100) [int_box 10 10 90 75; int_box 99 1 1 4].

Definition middle_and_strip_text : string :=
  record_text "[0, 0, 100, 100]"
    (item_text "[10, 10, 90, 75]" +:+ ", " +:+ item_text "[99, 1, 1, 4]").

(** A box in the middle and a box in the top strip, both small. *)
Definition small_middle_and_strip : record Qc :=
  plain_record (int_box 0 0 100 100) [int_box 40 40 60 60; int_box 10 1 30 4].

Definition small_middle_and_strip_text : string :=
  record_text "[0, 0, 100, 100]"
    (item_text "[40, 40, 60, 60]" +:+ ", " +:+ item_text "[10, 1, 30, 4]").

(** Records without [ImageBB]. *)
Definition no_bounds_no_text : json Qc := JObj {["ImageText" := JArr []]}.

Definition no_bounds_no_text_text : string := no_bounds_text EmptyString.

Definition no_bounds_two_texts : json Qc :=
  JObj {["ImageText" := JArr [text_json (plain_text (int_box 1 2 3 4));
                              text_json (plain_text (int_box 5 6 7 8))]]}.

Definition no_bounds_two_texts_text : string :=
  no_bounds_text (item_text "[1, 2, 3, 4]" +:+ ", " +:+ item_text "[5, 6, 7, 8]").

(** A record without [ImageText]. *)
Definition no_texts_key : json Qc := JObj {["ImageBB" := box_json (int_box 0 0 100 100)]}.

Definition no_texts_key_text : string :=
  "{" +:+ quoted "ImageBB" +:+ ": [0, 0, 100, 100]}".

(** A file name of two lines. *)
Definition two_line_name : string := "a" +:+ String newline "b-Figure-7.json".

(** Text that is not JSON. *)
Definition not_json_text : string := "{ImageText: ".

Definition documents : list (string * json Qc) :=
  [ (two_small_text, record_json two_small);
    (two_small_swapped_text, record_json two_small_swapped);
    (large_then_negative_text, record_json large_then_negative);
    (negative_then_large_text, record_json negative_then_large);
    (middle_and_strip_text, record_json middle_and_strip);
    (small_middle_and_strip_text, record_json small_middle_and_strip);
    (no_bounds_no_text_text, no_bounds_no_text);
    (no_bounds_two_texts_text, no_bounds_two_texts);
    (no_texts_key_text, no_texts_key) ].

Definition example_runtime : Runtime Qc := table_runtime documents.

(** Three boxes of areas 0.1, 0.2 and 0.3 in floats, in both orders, in an
    image of area 1.2. *)
Definition float_bounds : box PrimFloat.float :=
  Box (-1)%float (-0.5)%float 1%float 0.1%float.

Definition float_boxes : list (box PrimFloat.float) :=
  [ Box 0%float 0%float 0.1%float 1%float;
    Box 0%float 0%float 0.2%float 1%float;
    Box (-0.5)%float (-0.3)%float 0.5%float 0%float ].

Definition float_ascending : record PrimFloat.float :=
  plain_record float_bounds float_boxes.

Definition float_descending : record PrimFloat.float :=
  plain_record float_bounds (reverse float_boxes).

Definition float_bounds_text : string := "[-1.0, -0.5, 1.0, 0.1]".

Definition float_ascending_text : string :=
  record_text float_bounds_text
    (item_text "[0.0, 0.0, 0.1, 1.0]" +:+ ", " +:+
     item_text "[0.0, 0.0, 0.2, 1.0]" +:+ ", " +:+
     item_text "[-0.5, -0.3, 0.5, 0.0]").

Definition float_descending_text : string :=
  record_text float_bounds_text
    (item_text "[-0.5, -0.3, 0.5, 0.0]" +:+ ", " +:+
     item_text "[0.0, 0.0, 0.2, 1.0]" +:+ ", " +:+
     item_text "[0.0, 0.0, 0.1, 1.0]").

Definition float_runtime : Runtime PrimFloat.float :=
  table_runtime [ (float_ascending_text, record_json float_ascending);
                  (float_descending_text, record_json float_descending) ].

Definition quiet : logger := Logger false [].
Definition verbose : logger := Logger true [].

(** ** Changes of coordinates *)

Section Coordinates.
Context {num : Type} `{!Number num}.

(** The box moved by [dx] and [dy]. *)
Definition translate_box (dx dy : num) (b : box num) : box num :=
  Box (add (x0 b) dx) (add (y0 b) dy) (add (x1 b) dx) (add (y1 b) dy).

(** The box in units [k] times smaller. *)
Definition scale_box (k : num) (b : box num) : box num :=
  Box (mul (x0 b) k) (mul (y0 b) k) (mul (x1 b) k) (mul (y1 b) k).

(** The record with [f] applied to the bounds and to every text box. *)
Definition map_boxes (f : box num → box num) (r : record num) : record num :=
  Record_ (f (ImageBB r))
          ((λ t, Text (f (TextBB t)) (text_fields t)) <$> ImageText r)
          (record_fields r).
End Coordinates.

(** ** The two scans

    [run_local] and [run_s3] read files, classify them with [check] and
    print the identifiers of the bad ones.  Their input is what the file
    system and the bucket hand over: the listing of the directory with the
    contents of its regular files, and the keys that [bucket.list(path)]
    yields with their contents.  A listing or a read that fails is outside
    the model. *)

(** What [os.path] and the clock decide. *)
Class Platform : Type := {
  splitext : string → string * string;      (* [os.path.splitext] *)
  basename : string → string;               (* [os.path.basename] *)
  elapsed : nat → string                    (* [so_far] as logged for index [i] *)
}.

(** [print] writes to [stdout], [print >> sys.stderr] to [stderr], and
    [logging] to the logger. *)
Record console : Type := Console {
  console_log : logger;
  stdout : list string;
  stderr : list string
}.

Inductive failure : Type :=
  | Raised (e : exn)                         (* an exception of [check] *)
  | ZeroDivisionError.

Inductive outcome (A : Type) : Type :=
  | Returned (a : A)
  | Failed (f : failure).
Arguments Returned {A} a.
Arguments Failed {A} f.

Definition IO (A : Type) : Type := console → outcome A * console.

#[global] Instance IO_ret : MRet IO := λ A a c, (Returned a, c).
#[global] Instance IO_bind : MBind IO := λ A B f m c,
  match m c with
  | (Returned a, c') => f a c'
  | (Failed x, c') => (Failed x, c')
  end.

Definition print (line : string) : IO unit := λ c,
  (Returned (), Console (console_log c) (stdout c ++ [line]) (stderr c)).

Definition print_stderr (line : string) : IO unit := λ c,
  (Returned (), Console (console_log c) (stdout c) (stderr c ++ [line])).

(** [logging.info(msg)]: written when the level is [DEBUG]. *)
Definition logging_info (msg : string) : IO unit := λ c,
  (Returned (),
   if debug_enabled (console_log c)
   then Console (Logger (debug_enabled (console_log c))
                        (emitted (console_log c) ++ [msg]))
                (stdout c) (stderr c)
   else c).

(** [logging.error(msg)]: written at every level. *)
Definition logging_error (msg : string) : IO unit := λ c,
  (Returned (),
   Console (Logger (debug_enabled (console_log c))
                   (emitted (console_log c) ++ [msg]))
           (stdout c) (stderr c)).

(** [a % b] on ints. *)
Definition py_mod (a b : Z) : IO Z := λ c,
  (if decide (b = 0)%Z then Failed ZeroDivisionError
   else Returned (a `mod` b)%Z, c).

(** [s.strip('/')] *)
Fixpoint lstrip_slashes (s : list ascii) : list ascii :=
  match s with
  | a :: s' => if Ascii.eqb a "/" then lstrip_slashes s' else s
  | [] => []
  end.

Definition strip_slashes (s : string) : string :=
  String.string_of_list_ascii
    (rev (lstrip_slashes (rev (lstrip_slashes (String.list_ascii_of_string s))))).

(** Two directory entries and keys. *)
Record dir_entry : Type := DirEntry {
  entry_name : string;                       (* as [os.listdir] gives it *)
  entry_file : option string                 (* the contents, if [os.path.isfile] *)
}.

Record s3_key : Type := S3Key {
  key_name : string;
  key_contents : string                      (* [key.get_contents_as_string()] *)
}.

Section Scans.
Context {num : Type} `{!Number num} `{!Runtime num} `{!Platform}.

(** A call of [check] from a scan: its exception ends the scan. *)
Definition call_check (json_data : string) : IO bool := λ c,
  match check json_data (console_log c) with
  | (Ok bad, lg) => (Returned bad, Console lg (stdout c) (stderr c))
  | (Err e, lg) => (Failed (Raised e), Console lg (stdout c) (stderr c))
  end.

(** [groups = PATTERN.search(name)], [if groups: print(groups.group(1))] *)
Definition report (name : string) : IO unit :=
  match search PATTERN name with
  | Some g =>
      print (match g with
             | Some id => id
             | None => "None"
             end)
  | None => mret ()
  end.

(** The body of the loop of [run_local]. *)
Definition run_local_entry (e : dir_entry) : IO unit :=
  match entry_file e with
  | Some contents =>
      if decide ((splitext (entry_name e)).2 = ".json") then
        bad ← call_check contents;
        if bad : bool then report (entry_name e) else mret ()
      else mret ()
  | None => mret ()
  end.

(** [run_local(path)], on the listing of [path]. *)
Fixpoint run_local (entries : list dir_entry) : IO unit :=
  match entries with
  | [] => mret ()
  | e :: rest => run_local_entry e;; run_local rest
  end.

(** The body of the loop of [run_s3] for the key of index [i]. *)
Definition run_s3_key (path : string) (chunk of_ : Z) (i : nat) (key : s3_key) :
    IO unit :=
  (if decide (i `mod` 1000 = 0)%nat then
     logging_info ("Processing number " +:+ pretty i +:+ " after " +:+
                   elapsed i +:+ " seconds")
   else mret ());;
  m ← py_mod (Z.of_nat i) of_;
  if decide (m = chunk) then
    if decide (strip_slashes (key_name key) = strip_slashes path) then
      mret ()
    else if decide ((splitext (key_name key)).2 = ".json") then
      bad ← call_check (key_contents key);
      if bad : bool then report (basename (key_name key)) else mret ()
    else logging_error ("Not a json file " +:+ key_name key)
  else mret ().

(** The loop of [run_s3], from index [i]. *)
Fixpoint run_s3_loop (path : string) (chunk of_ : Z) (i : nat)
    (keys : list s3_key) : IO unit :=
  match keys with
  | [] => mret ()
  | key :: rest =>
      run_s3_key path chunk of_ i key;; run_s3_loop path chunk of_ (S i) rest
  end.

(** [run_s3(bucket_name, path, chunk, of)], on the keys of the bucket
    under [path]. *)
Definition run_s3 (path : string) (chunk of_ : Z) (keys : list s3_key) : IO unit :=
  print_stderr ("Run " +:+ pretty chunk +:+ " of " +:+ pretty of_);;
  run_s3_loop path chunk of_ 0 keys.

(** *** What a scan prints, file by file *)

(** The result of [check], which no logger changes. *)
Definition classify (json_data : string) : result bool :=
  (check json_data (Logger false [])).1.

(** The line for a file of that name, once it is classified bad. *)
Definition name_lines (name : string) : list string :=
  match search PATTERN name with
  | Some (Some id) => [id]
  | Some None => ["None"]
  | None => []
  end.

(** The contents that [run_local] hands to [check]. *)
Definition local_checked (e : dir_entry) : option string :=
  match entry_file e with
  | Some contents =>
      if decide ((splitext (entry_name e)).2 = ".json") then Some contents
      else None
  | None => None
  end.

Definition checked_lines (name : string) (checked : option string) : list string :=
  match checked with
  | Some contents =>
      match classify contents with
      | Ok true => name_lines name
      | _ => []
      end
  | None => []
  end.

Definition local_lines (e : dir_entry) : list string :=
  checked_lines (entry_name e) (local_checked e).

(** The contents that [run_s3] hands to [check], for a key of its part. *)
Definition s3_checked (path : string) (key : s3_key) : option string :=
  if decide (strip_slashes (key_name key) = strip_slashes path) then None
  else if decide ((splitext (key_name key)).2 = ".json")
       then Some (key_contents key)
       else None.

Definition s3_lines (path : string) (key : s3_key) : list string :=
  checked_lines (basename (key_name key)) (s3_checked path key).

(** The keys of the part [chunk] of [of], when the first key has index [i]. *)
Fixpoint part (chunk of_ : Z) (i : nat) (keys : list s3_key) : list s3_key :=
  match keys with
  | [] => []
  | key :: rest =>
      if decide (Z.of_nat i `mod` of_ = chunk)%Z
      then key :: part chunk of_ (S i) rest
      else part chunk of_ (S i) rest
  end.

(** [check] returns on the contents, if the file is checked at all. *)
Definition checkable (checked : option string) : Prop :=
  match checked with
  | Some contents => is_Ok (classify contents)
  | None => True
  end.

(** From [c] to [c'] the lines were printed, and nothing else was written
    to [stdout] or directly to [stderr]. *)
Definition prints (lines : list string) (c c' : console) : Prop :=
  stdout c' = stdout c ++ lines ∧ stderr c' = stderr c.

(** The console with nothing written. *)
Definition fresh (debug : bool) : console := Console (Logger debug []) [] [].
End Scans.

(** [posixpath] on names as lists of characters, for the examples. *)
Fixpoint rfind_from (c : ascii) (s : list ascii) (i : nat) (found : option nat) :
    option nat :=
  match s with
  | [] => found
  | a :: s' => rfind_from c s' (S i) (if Ascii.eqb a c then Some i else found)
  end.

Definition rfind (c : ascii) (s : list ascii) : option nat := rfind_from c s 0 None.

(** The index after the last [/]. *)
Definition after_sep (s : list ascii) : nat :=
  match rfind "/" s with
  | Some i => S i
  | None => 0
  end.

Definition posix_splitext (p : string) : string * string :=
  let s := String.list_ascii_of_string p in
  match rfind "." s with
  | Some dot =>
      if bool_decide (after_sep s ≤ dot) &&
         existsb (λ a, negb (Ascii.eqb a "."))
                 (take (dot - after_sep s) (drop (after_sep s) s))
      then (String.string_of_list_ascii (take dot s),
            String.string_of_list_ascii (drop dot s))
      else (p, EmptyString)
  | None => (p, EmptyString)
  end.

Definition posix_basename (p : string) : string :=
  let s := String.list_ascii_of_string p in
  String.string_of_list_ascii (drop (after_sep s) s).

Definition posix : Platform := {|
  splitext := posix_splitext;
  basename := posix_basename;
  elapsed := λ _, "0.0"
|}.

(** *** Further documents, a directory and a bucket *)

(** An object in the place of the second text item. *)
Definition large_then_empty : json Qc :=
  JObj (<["ImageBB" := box_json (int_box 0 0 100 100)]>
          {["ImageText" := JArr [text_json (plain_text (int_box 10 10 90 75));
                                 JObj ∅]]}).

Definition large_then_empty_text : string :=
  record_text "[0, 0, 100, 100]" (item_text "[10, 10, 90, 75]" +:+ ", {}").

(** A JSON array. *)
Definition array_text : string := "[1, 2]".

(** [two_small] with a caption and the words of the text boxes. *)
Definition two_small_words : record Qc :=
  Record_ (int_box 0 0 100 100)
          [Text (int_box 10 10 20 20) {["Text" := JStr "a"]};
           Text (int_box 30 30 40 40) {["Text" := JStr "b"]}]
          {["Caption" := JStr "c"]}.

Definition word_item_text (bb word : string) : string :=
  "{" +:+ quoted "TextBB" +:+ ": " +:+ bb +:+ ", " +:+
  quoted "Text" +:+ ": " +:+ quoted word +:+ "}".

Definition two_small_words_text : string :=
  "{" +:+ quoted "Caption" +:+ ": " +:+ quoted "c" +:+ ", " +:+
  quoted "ImageBB" +:+ ": [0, 0, 100, 100], " +:+
  quoted "ImageText" +:+ ": [" +:+
  word_item_text "[10, 10, 20, 20]" "a" +:+ ", " +:+
  word_item_text "[30, 30, 40, 40]" "b" +:+ "]}".

(** [two_small] moved by (5, 7), and in units half as long. *)
Definition two_small_moved : record Qc :=
  map_boxes (translate_box (int 5) (int 7)) two_small.

Definition two_small_moved_text : string :=
  record_text "[5, 7, 105, 107]"
    (item_text "[15, 17, 25, 27]" +:+ ", " +:+ item_text "[35, 37, 45, 47]").

Definition two_small_doubled : record Qc := map_boxes (scale_box (int 2)) two_small.

Definition two_small_doubled_text : string :=
  record_text "[0, 0, 200, 200]"
    (item_text "[20, 20, 40, 40]" +:+ ", " +:+ item_text "[60, 60, 80, 80]").

Definition more_documents : list (string * json Qc) :=
  documents ++
  [ (large_then_empty_text, large_then_empty);
    (array_text, JArr [JNum (int 1); JNum (int 2)]);
    (two_small_words_text, record_json two_small_words);
    (two_small_moved_text, record_json two_small_moved);
    (two_small_doubled_text, record_json two_small_doubled) ].

Definition scan_runtime : Runtime Qc := table_runtime more_documents.

(** A directory: two bad figures, a good one, a subdirectory, a text file
    and a bad file whose name does not match. *)
Definition figures : list dir_entry :=
  [ DirEntry "p-Figure-1.json" (Some large_then_negative_text);
    DirEntry "sub" None;
    DirEntry "q-Figure-2.json" (Some two_small_text);
    DirEntry "r-Figure-3.txt" (Some large_then_negative_text);
    DirEntry "chart.json" (Some no_bounds_no_text_text);
    DirEntry "s-Figure-4-x.json" (Some no_bounds_no_text_text) ].

(** A file that is not JSON, and a bad figure after it. *)
Definition broken : dir_entry := DirEntry "u-Figure-6.json" (Some not_json_text).

Definition late : list dir_entry :=
  [ DirEntry "t-Figure-5.json" (Some no_bounds_no_text_text) ].

(** The keys under [figs] in a bucket. *)
Definition bucket_keys : list s3_key :=
  [ S3Key "figs/" EmptyString;
    S3Key "figs/p-Figure-1.json" large_then_negative_text;
    S3Key "figs/q-Figure-2.json" two_small_text;
    S3Key "figs/readme.txt" "hello";
    S3Key "figs/s-Figure-4-x.json" no_bounds_no_text_text ].

(** * Properties *)

Section Refinement.
Context {num : Type} `{!Number num} `{!Runtime num}.
Implicit Types (a b bounds : box num) (t : text num) (ts : list (text num)).

Lemma getitem_TextBB t :
  getitem (text_json t) (KStr "TextBB") = Ok (box_json (TextBB t)).
Proof. unfold text_json, getitem. by rewrite lookup_insert_eq. Qed.

Lemma contains_box a b :
  contains (box_json a) (box_json b) = Ok (strictly_inside a b).
Proof.
  unfold contains, strictly_inside; cbn.
  destruct (gtb (x0 a) (x0 b)); cbn; [|done].
  destruct (ltb (x1 a) (x1 b)); cbn; [|done].
  by destruct (gtb (y0 a) (y0 b)); cbn.
Qed.

Lemma area_box a : area (box_json a) = Ok (JNum (box_area a)).
Proof. reflexivity. Qed.

Lemma all_in_border_loop_boxes nt nb top bottom ts :
  top && bottom = false →
  all_in_border_loop (box_json nt) (box_json nb) top bottom (text_json <$> ts)
  = Ok (negb ((top || some_text_inside nt ts) &&
              (bottom || some_text_inside nb ts))).
Proof.
  revert top bottom. induction ts as [|t ts IH]; intros top bottom Hflags.
  - cbn. rewrite !orb_false_r, Hflags. done.
  - rewrite fmap_cons. cbn [all_in_border_loop].
    rewrite getitem_TextBB. cbn [mbind result_bind].
    rewrite !contains_box. cbn [mbind result_bind some_text_inside existsb].
    fold (some_text_inside nt ts) (some_text_inside nb ts).
    set (p := strictly_inside (TextBB t) nt).
    set (q := strictly_inside (TextBB t) nb).
    destruct ((if p then true else top) && (if q then true else bottom)) eqn:E.
    + destruct p, q, top, bottom; cbn in *; try done.
    + rewrite IH by done.
      destruct p, q, top, bottom; cbn in *; try done.
Qed.

Lemma all_in_border_boxes bounds ts :
  all_in_border (box_json bounds) (texts_json ts)
  = Ok (confined_to_border bounds ts).
Proof.
  unfold all_in_border, texts_json. cbn.
  apply (all_in_border_loop_boxes (not_top_region bounds)
           (not_bottom_region bounds) false false ts). done.
Qed.

Lemma existsb_seq_S (f : nat → bool) (i n : nat) :
  existsb f (seq (S i) n) = existsb (λ k, f (S k)) (seq i n).
Proof.
  revert i. induction n as [|n IH]; intros i; [done|].
  cbn. by rewrite IH.
Qed.

Lemma is_sum_larger_loop_boxes (bound s : num) ts :
  is_sum_larger_loop (JNum bound) (JNum s) (text_json <$> ts)
  = Ok (existsb
          (λ k, gtb (foldl (λ s t, add s (box_area (TextBB t))) s (take k ts))
                    bound)
          (seq 1 (length ts))).
Proof.
  revert s. induction ts as [|t ts IH]; intros s; [done|].
  rewrite fmap_cons. cbn [is_sum_larger_loop].
  rewrite getitem_TextBB. cbn [mbind result_bind].
  rewrite area_box. cbn [mbind result_bind py_add py_arith as_number py_gt].
  simpl.
  destruct (gtb (add s (box_area (TextBB t))) bound) eqn:E; [done|].
  rewrite (existsb_seq_S _ 1 (length ts)), IH. done.
Qed.

Lemma is_sum_larger_boxes (bound : num) ts :
  is_sum_larger (JNum bound) (texts_json ts)
  = Ok (running_sum_exceeds bound ts).
Proof. apply is_sum_larger_loop_boxes. Qed.

Lemma getitem_ImageText (r : record num) :
  getitem (record_json r) (KStr "ImageText") = Ok (texts_json (ImageText r)).
Proof.
  unfold record_json, getitem.
  by rewrite lookup_insert_ne, lookup_insert_eq.
Qed.

Lemma getitem_ImageBB (r : record num) :
  getitem (record_json r) (KStr "ImageBB") = Ok (box_json (ImageBB r)).
Proof. unfold record_json, getitem. by rewrite lookup_insert_eq. Qed.

Lemma len_texts ts : len (texts_json ts) = Ok (length ts).
Proof. unfold texts_json, len. by rewrite length_fmap. Qed.

Lemma bind_Ok {A B} (r : result A) (a : A) (f : A → M B) (lg : logger) :
  r = Ok a → (raise_or_return r ≫= f) lg = f a lg.
Proof. by intros ->. Qed.

Lemma bind_Err {A B} (r : result A) (e : exn) (f : A → M B) (lg : logger) :
  r = Err e → (raise_or_return r ≫= f) lg = (Err e, lg).
Proof. by intros ->. Qed.

Lemma check_record (r : record num) (json_data : string) (lg : logger) :
  json_loads json_data = Ok (record_json r) →
  check json_data lg = (Ok (verdict r), log_diagnostic r lg).
Proof.
  intros Hparse. unfold check, verdict, log_diagnostic, rule_chain.
  rewrite (bind_Ok _ _ _ _ Hparse).
  rewrite (bind_Ok _ _ _ _ (getitem_ImageText r)).
  rewrite (bind_Ok _ _ _ _ (len_texts _)).
  case_bool_decide; [done|].
  rewrite (bind_Ok _ _ _ _ (len_texts _)).
  case_bool_decide; [done|].
  rewrite (bind_Ok _ _ _ _ (getitem_ImageBB r)).
  rewrite (bind_Ok _ _ _ _ (all_in_border_boxes _ _)).
  destruct (confined_to_border _ _); [done|].
  rewrite (bind_Ok _ _ _ _ (getitem_ImageBB r)).
  rewrite (bind_Ok _ _ _ _ (area_box _)).
  rewrite (bind_Ok (py_mul (JNum (box_area (ImageBB r))) (JNum lit_0_5))
             (JNum (half_area (ImageBB r))) _ _ eq_refl).
  rewrite (bind_Ok _ _ _ _ (is_sum_larger_boxes _ _)).
  by destruct (running_sum_exceeds _ _).
Qed.

(** C9. [contains(a, b)] returns, and it returns true exactly when
    [a.x0 > b.x0], [a.x1 < b.x1], [a.y0 > b.y0] and [a.y1 < b.y1]; a box
    with an edge on the corresponding edge of [b] is not contained. *)
Theorem contains_strict `{!StrictNumber num} a b :
  ∃ res : bool,
    contains (box_json a) (box_json b) = Ok res ∧
    (res = true ↔
       gtb (x0 a) (x0 b) = true ∧ ltb (x1 a) (x1 b) = true ∧
       gtb (y0 a) (y0 b) = true ∧ ltb (y1 a) (y1 b) = true) ∧
    (x0 a = x0 b ∨ x1 a = x1 b ∨ y0 a = y0 b ∨ y1 a = y1 b → res = false).
Proof.
  exists (strictly_inside a b). split; [apply contains_box|].
  unfold strictly_inside. split.
  - rewrite !andb_true_iff. tauto.
  - intros [E|[E|[E|E]]]; rewrite E;
      rewrite ?gtb_irrefl, ?ltb_irrefl, ?andb_false_r; done.
Qed.

Lemma some_text_inside_true (region : box num) ts :
  some_text_inside region ts = true ↔
  ∃ t, t ∈ ts ∧ strictly_inside (TextBB t) region = true.
Proof.
  unfold some_text_inside. rewrite existsb_exists.
  by setoid_rewrite list_elem_of_In.
Qed.

(** C7. [all_in_border(bounds, texts)] returns false exactly when some
    text box is strictly inside the bounds without their top strip and
    some text box is strictly inside the bounds without their bottom
    strip. *)
Theorem all_in_border_false_iff bounds ts :
  ∃ res : bool,
    all_in_border (box_json bounds) (texts_json ts) = Ok res ∧
    (res = false ↔
       (∃ t, t ∈ ts ∧
             strictly_inside (TextBB t) (not_top_region bounds) = true) ∧
       (∃ t, t ∈ ts ∧
             strictly_inside (TextBB t) (not_bottom_region bounds) = true)).
Proof.
  exists (confined_to_border bounds ts). split; [apply all_in_border_boxes|].
  unfold confined_to_border.
  rewrite negb_false_iff, andb_true_iff, !some_text_inside_true. done.
Qed.

(** C3, as the code has it.  Without text boxes [all_in_border] returns
    true; with one text box it returns false when that box is strictly
    inside both shrunken regions, and true otherwise: the early exit can
    trigger on the first box. *)
Theorem all_in_border_short bounds :
  all_in_border (box_json bounds) (texts_json []) = Ok true ∧
  ∀ t,
    all_in_border (box_json bounds) (texts_json [t])
    = Ok (negb (strictly_inside (TextBB t) (not_top_region bounds) &&
                strictly_inside (TextBB t) (not_bottom_region bounds))).
Proof.
  split; [apply all_in_border_boxes|].
  intros t. rewrite all_in_border_boxes.
  unfold confined_to_border, some_text_inside. cbn.
  by rewrite !orb_false_r.
Qed.

(** C1. For a well-formed record [check] returns, and its verdict is that
    of the first matching rule of: no text box; one text box; all text
    confined to the border strips; the running sum of the text areas
    exceeds half the image area; otherwise the label is good.  The
    diagnostic written is that of the deciding rule. *)
Theorem check_rule_chain (r : record num) (json_data : string) (lg : logger) :
  json_loads json_data = Ok (record_json r) →
  check json_data lg = (Ok (verdict r), log_diagnostic r lg).
Proof. apply check_record. Qed.

Lemma check_few_texts (json_data : string) (lg : logger) :
  few_texts json_data → (check json_data lg).1 = Ok true.
Proof.
  intros (m & texts & n & Hparse & Hkey & Hlen & Hn). unfold check.
  rewrite (bind_Ok _ _ _ _ Hparse).
  rewrite (bind_Ok (getitem _ _) texts) by (cbn; by rewrite Hkey).
  rewrite (bind_Ok _ _ _ _ Hlen).
  case_bool_decide; [done|].
  rewrite (bind_Ok _ _ _ _ Hlen).
  case_bool_decide; [done|]. lia.
Qed.

(** C5. When [ImageText] is a list of zero or one element [check] returns
    bad, whatever the rest of the record holds: [ImageBB] may have any
    value or be absent. *)
Theorem check_short_list (json_data : string) (m : gmap string (json num))
    (l : list (json num)) (lg : logger) :
  json_loads json_data = Ok (JObj m) →
  m !! "ImageText" = Some (JArr l) →
  length l ≤ 1 →
  (check json_data lg).1 = Ok true.
Proof.
  intros Hparse Hkey Hlen. apply check_few_texts.
  exists m, (JArr l), (length l). done.
Qed.

(** C2, as the code has it.  [check] raises, and writes nothing, for text
    that is not JSON, for an object without [ImageText], and for an object
    without [ImageBB] unless its [ImageText] has length 0 or 1. *)
Theorem check_malformed (json_data : string) (lg : logger) :
  malformed json_data → ¬ few_texts json_data →
  is_Err (check json_data lg).1 ∧ (check json_data lg).2 = lg.
Proof.
  intros [[e He]|[(m & Hparse & Hkey)|(m & Hparse & Hkey)]] Hfew; unfold check.
  - rewrite (bind_Err _ _ _ _ He). split; [by exists e|done].
  - rewrite (bind_Ok _ _ _ _ Hparse).
    rewrite (bind_Err (getitem _ _) (KeyError (KStr "ImageText")))
      by (cbn; by rewrite Hkey).
    split; [by eexists|done].
  - rewrite (bind_Ok _ _ _ _ Hparse).
    destruct (getitem (JObj m) (KStr "ImageText")) as [texts|e] eqn:Htexts.
    2: { rewrite (bind_Err _ _ _ _ eq_refl). split; [by eexists|done]. }
    rewrite (bind_Ok _ _ _ _ eq_refl).
    assert (m !! "ImageText" = Some texts) as Hkey'.
    { cbn in Htexts. destruct (m !! "ImageText"); by simplify_eq. }
    destruct (len texts) as [n|e] eqn:Hlen.
    2: { rewrite (bind_Err _ _ _ _ eq_refl). split; [by eexists|done]. }
    rewrite (bind_Ok _ _ _ _ eq_refl).
    case_bool_decide as H0.
    { destruct Hfew. exists m, texts, n. repeat split; [done..|lia]. }
    rewrite (bind_Ok _ _ _ _ eq_refl).
    case_bool_decide as H1.
    { destruct Hfew. exists m, texts, n. repeat split; [done..|lia]. }
    rewrite (bind_Err (getitem _ _) (KeyError (KStr "ImageBB")))
      by (cbn; by rewrite Hkey).
    split; [by eexists|done].
Qed.

(** C10. The verdict of [check] is a function of its input: it is the same
    whatever state the logger is in, and so the same when [check] runs a
    second time after itself. *)
Theorem check_deterministic (json_data : string) (lg lg' : logger) :
  (check json_data lg).1 = (check json_data lg').1 ∧
  (check json_data (check json_data lg).2).1 = (check json_data lg).1.
Proof.
  assert (∀ lg1 lg2, (check json_data lg1).1 = (check json_data lg2).1) as Hst.
  { intros lg1 lg2. unfold check.
    repeat match goal with
    | |- context [raise_or_return ?r ≫= _] =>
        destruct r eqn:?;
        [ rewrite !(bind_Ok _ _ _ _ eq_refl)
        | by rewrite !(bind_Err _ _ _ _ eq_refl) ]
    | |- context [bool_decide ?P] => case_bool_decide; [done|]
    | |- context [if ?b then _ else _] => destruct b; [done|]
    end.
    done. }
  split; apply Hst.
Qed.

Lemma check_two_texts (r : record num) (json_data : string) (lg : logger)
    (t1 t2 : text num) :
  json_loads json_data = Ok (record_json r) →
  ImageText r = [t1; t2] →
  confined_to_border (ImageBB r) [t1; t2] = false →
  gtb (total_area [t1]) (half_area (ImageBB r)) = false →
  gtb (total_area [t1; t2]) (half_area (ImageBB r)) = false →
  check json_data lg = (Ok false, lg).
Proof.
  intros Hparse Hts Hborder H1 H2.
  rewrite (check_record r _ _ Hparse).
  unfold verdict, log_diagnostic, rule_chain. rewrite Hts. cbn [length].
  rewrite !bool_decide_eq_false_2 by lia. rewrite Hborder.
  unfold running_sum_exceeds. cbn [length seq existsb firstn].
  by rewrite H1, H2.
Qed.

(** A text box strictly inside both shrunken regions sets both flags. *)
Lemma middle_not_confined bounds ts t :
  t ∈ ts →
  strictly_inside (TextBB t) (not_top_region bounds) = true →
  strictly_inside (TextBB t) (not_bottom_region bounds) = true →
  confined_to_border bounds ts = false.
Proof.
  intros Ht Htop Hbottom. unfold confined_to_border.
  apply negb_false_iff, andb_true_iff.
  split; apply some_text_inside_true; by exists t.
Qed.

(** C6, as the code has it.  Two text boxes, one strictly inside both
    shrunken regions and the other strictly inside the top strip: [check]
    returns good when neither the area of the first box nor the area of
    both exceeds half the image area. *)
Theorem check_middle_and_strip (r : record num) (json_data : string)
    (lg : logger) (t1 t2 : text num) :
  json_loads json_data = Ok (record_json r) →
  ImageText r = [t1; t2] →
  (∃ mid strip, (mid = t1 ∧ strip = t2 ∨ mid = t2 ∧ strip = t1) ∧
     strictly_inside (TextBB mid) (not_top_region (ImageBB r)) = true ∧
     strictly_inside (TextBB mid) (not_bottom_region (ImageBB r)) = true ∧
     strictly_inside (TextBB strip) (top_strip (ImageBB r)) = true) →
  gtb (total_area [t1]) (half_area (ImageBB r)) = false →
  gtb (total_area [t1; t2]) (half_area (ImageBB r)) = false →
  check json_data lg = (Ok false, lg).
Proof.
  intros Hparse Hts (mid & strip & Hwhich & Htop & Hbottom & _) H1 H2.
  apply (check_two_texts r _ _ t1 t2); [done..| |done|done].
  apply (middle_not_confined _ _ mid); [|done..].
  destruct Hwhich as [[-> _]|[-> _]]; set_solver.
Qed.
End Refinement.

(** ** Order of the text boxes *)

Section Order.
Context {num : Type} `{!Number num} `{!ExactNumber num} `{!Runtime num}.
Implicit Types (t : text num) (ts : list (text num)).

Lemma add_area_swap (s : num) t1 t2 :
  add (add s (box_area (TextBB t1))) (box_area (TextBB t2))
  = add (add s (box_area (TextBB t2))) (box_area (TextBB t1)).
Proof.
  rewrite <-!add_assoc_exact.
  by rewrite (add_comm_exact (box_area (TextBB t1))).
Qed.

Lemma sum_areas_perm (s : num) ts ts' :
  ts ≡ₚ ts' →
  foldl (λ s t, add s (box_area (TextBB t))) s ts
  = foldl (λ s t, add s (box_area (TextBB t))) s ts'.
Proof.
  intros Hp. revert s.
  induction Hp as [|t ts ts' _ IH|t1 t2 ts|ts1 ts2 ts3 _ IH1 _ IH2]; intros s.
  - done.
  - cbn. apply IH.
  - cbn. by rewrite add_area_swap.
  - by rewrite IH1.
Qed.

Lemma sum_areas_exceeds (bound s : num) ts :
  Forall nonneg_area ts →
  gtb s bound = true →
  gtb (foldl (λ s t, add s (box_area (TextBB t))) s ts) bound = true.
Proof.
  intros Hts. revert s. induction Hts as [|t ts Ht _ IH]; intros s Hs; [done|].
  cbn. apply IH. by apply gtb_add_nonneg.
Qed.

Lemma running_sum_from (bound s : num) ts :
  Forall nonneg_area ts →
  existsb
    (λ k, gtb (foldl (λ s t, add s (box_area (TextBB t))) s (take k ts)) bound)
    (seq 1 (length ts))
  = match ts with
    | [] => false
    | _ => gtb (foldl (λ s t, add s (box_area (TextBB t))) s ts) bound
    end.
Proof.
  intros Hts. revert s. induction Hts as [|t ts Ht Hts IH]; intros s; [done|].
  cbn [length seq existsb].
  rewrite (existsb_seq_S _ 1 (length ts)).
  pose proof (IH (add s (box_area (TextBB t)))) as IH'.
  simpl in IH' |- *. rewrite IH'. clear IH IH'.
  destruct ts as [|t' ts]; [by rewrite orb_false_r|].
  destruct (gtb (add s (box_area (TextBB t))) bound) eqn:E; [|done].
  cbn [orb]. symmetry. by apply sum_areas_exceeds.
Qed.

Lemma running_sum_exceeds_perm (bound : num) ts ts' :
  Forall nonneg_area ts → ts ≡ₚ ts' →
  running_sum_exceeds bound ts = running_sum_exceeds bound ts'.
Proof.
  intros Hts Hp. unfold running_sum_exceeds, total_area.
  rewrite !running_sum_from by (by rewrite <-?Hp).
  rewrite (sum_areas_perm _ _ _ Hp).
  destruct ts, ts'; try done.
  - by apply Permutation_nil_cons in Hp.
  - symmetry in Hp. by apply Permutation_nil_cons in Hp.
Qed.

Lemma confined_to_border_perm (bounds : box num) ts ts' :
  ts ≡ₚ ts' → confined_to_border bounds ts = confined_to_border bounds ts'.
Proof.
  intros Hp. unfold confined_to_border. f_equal. f_equal.
  - apply eq_true_iff_eq. rewrite !some_text_inside_true.
    by setoid_rewrite Hp.
  - apply eq_true_iff_eq. rewrite !some_text_inside_true.
    by setoid_rewrite Hp.
Qed.

(** The border rule does not depend on the order of the text boxes, in any
    arithmetic. *)
Lemma all_in_border_permutation (bounds : box num) ts ts' :
  ts ≡ₚ ts' →
  all_in_border (box_json bounds) (texts_json ts)
  = all_in_border (box_json bounds) (texts_json ts').
Proof.
  intros Hp. rewrite !all_in_border_boxes.
  by rewrite (confined_to_border_perm _ _ _ Hp).
Qed.

(** With exact sums and a second box whose area is not negative, the total
    decides the area rule for two boxes. *)
Lemma check_middle_and_strip_total (r : record num) (json_data : string)
    (lg : logger) (t1 t2 : text num) :
  json_loads json_data = Ok (record_json r) →
  ImageText r = [t1; t2] →
  (∃ mid, mid ∈ [t1; t2] ∧
     strictly_inside (TextBB mid) (not_top_region (ImageBB r)) = true ∧
     strictly_inside (TextBB mid) (not_bottom_region (ImageBB r)) = true) →
  nonneg_area t2 →
  gtb (total_area [t1; t2]) (half_area (ImageBB r)) = false →
  check json_data lg = (Ok false, lg).
Proof.
  intros Hparse Hts (mid & Hmid & Htop & Hbottom) Hnonneg Htotal.
  apply (check_two_texts r _ _ t1 t2); [done..| | |done].
  - by apply (middle_not_confined _ _ mid).
  - destruct (gtb (total_area [t1]) (half_area (ImageBB r))) eqn:E; [|done].
    rewrite <-Htotal. symmetry. by apply gtb_add_nonneg.
Qed.

(** C4, as the code has it.  When no text box has a negative area and
    sums are exact, the verdict of [check] is the same for every order of
    the text boxes. *)
Theorem check_permutation (r r' : record num) (json_data json_data' : string)
    (lg lg' : logger) :
  json_loads json_data = Ok (record_json r) →
  json_loads json_data' = Ok (record_json r') →
  ImageBB r = ImageBB r' →
  ImageText r ≡ₚ ImageText r' →
  Forall nonneg_area (ImageText r) →
  (check json_data lg).1 = (check json_data' lg').1.
Proof.
  intros Hparse Hparse' Hbb Hp Hts.
  rewrite (check_record r _ _ Hparse), (check_record r' _ _ Hparse').
  cbn [fst]. f_equal. unfold verdict, rule_chain.
  rewrite <-Hbb, <-(Permutation_length Hp).
  rewrite <-(confined_to_border_perm _ _ _ Hp).
  rewrite <-(running_sum_exceeds_perm _ _ _ Hts Hp). done.
Qed.
End Order.

(** ** Exact rationals *)

#[global] Instance Qc_exact : ExactNumber Qc.
Proof.
  split.
  - apply Qcplus_comm.
  - apply Qcplus_assoc.
  - intros s a t Ha Hs. cbn in *.
    apply bool_decide_eq_false in Ha. apply bool_decide_eq_true in Hs.
    apply bool_decide_eq_true. apply Qcnot_lt_le in Ha.
    apply Qclt_le_trans with s; [done|].
    rewrite <-(Qcplus_0_r s) at 1. by apply Qcplus_le_compat; [apply Qcle_refl|].
Qed.

#[global] Instance Qc_strict : StrictNumber Qc.
Proof.
  split; intros x; apply bool_decide_eq_false, Qcle_not_lt, Qcle_refl.
Qed.

(** ** The claims on the example documents *)

Section Examples.
#[local] Existing Instance example_runtime.

Lemma check_rule_chain_two_small :
  json_loads two_small_text = Ok (record_json two_small) ∧
  check two_small_text verbose = (Ok false, verbose).
Proof.
  assert (json_loads two_small_text = Ok (record_json two_small)) as Hparse
    by (vm_compute; reflexivity).
  split; [exact Hparse|].
  rewrite (check_rule_chain two_small two_small_text verbose Hparse).
  vm_compute. reflexivity.
Defined.

(** Against C2: an object without [ImageBB] and without text boxes is
    classified bad. *)
Lemma check_missing_bounds_returns :
  malformed no_bounds_no_text_text ∧
  (check no_bounds_no_text_text quiet).1 = Ok true.
Proof.
  split; [|vm_compute; reflexivity].
  right. right. exists {["ImageText" := JArr []]}.
  split; vm_compute; reflexivity.
Qed.

Lemma check_malformed_two_texts :
  malformed no_bounds_two_texts_text ∧
  ¬ few_texts no_bounds_two_texts_text ∧
  is_Err (check no_bounds_two_texts_text quiet).1 ∧
  (check no_bounds_two_texts_text quiet).2 = quiet.
Proof.
  assert (malformed no_bounds_two_texts_text) as Hmal.
  { right. right. eexists. split; [vm_compute; reflexivity|].
    vm_compute. reflexivity. }
  assert (¬ few_texts no_bounds_two_texts_text) as Hfew.
  { intros (m & texts & n & Hparse & Hkey & Hlen & Hn).
    vm_compute in Hparse. injection Hparse as <-.
    vm_compute in Hkey. injection Hkey as <-.
    vm_compute in Hlen. injection Hlen as <-. lia. }
  split; [exact Hmal|]. split; [exact Hfew|].
  exact (check_malformed no_bounds_two_texts_text quiet Hmal Hfew).
Defined.

(** Against C3: one text box in the middle of the image. *)
Lemma all_in_border_one_box_false :
  all_in_border (box_json (int_box 0 0 100 100))
                (texts_json [plain_text (int_box 10 10 90 75)])
  = Ok false.
Proof. vm_compute. reflexivity. Qed.

(** Against C4: a box of negative area. *)
Lemma check_order_matters :
  json_loads large_then_negative_text = Ok (record_json large_then_negative) ∧
  json_loads negative_then_large_text = Ok (record_json negative_then_large) ∧
  ImageBB large_then_negative = ImageBB negative_then_large ∧
  ImageText large_then_negative ≡ₚ ImageText negative_then_large ∧
  (check large_then_negative_text quiet).1 = Ok true ∧
  (check negative_then_large_text quiet).1 = Ok false.
Proof.
  repeat split; try (vm_compute; reflexivity).
  apply perm_swap.
Qed.

Lemma check_permutation_two_small :
  (check two_small_text quiet).1 = (check two_small_swapped_text verbose).1.
Proof.
  apply (check_permutation two_small two_small_swapped).
  - vm_compute. reflexivity.
  - vm_compute. reflexivity.
  - reflexivity.
  - apply perm_swap.
  - repeat constructor; vm_compute; reflexivity.
Defined.

Lemma check_short_list_no_bounds :
  (check no_bounds_no_text_text verbose).1 = Ok true.
Proof.
  apply (check_short_list no_bounds_no_text_text
           {["ImageText" := JArr []]} [] verbose).
  - vm_compute. reflexivity.
  - vm_compute. reflexivity.
  - simpl. lia.
Defined.

(** Against C6: the box in the middle is large, the box in the top strip
    has a negative area, and the two areas sum to less than half the
    image. *)
Lemma check_middle_and_strip_bad :
  json_loads middle_and_strip_text = Ok (record_json middle_and_strip) ∧
  ImageText middle_and_strip
  = [plain_text (int_box 10 10 90 75); plain_text (int_box 99 1 1 4)] ∧
  strictly_inside (int_box 10 10 90 75)
    (not_top_region (ImageBB middle_and_strip)) = true ∧
  strictly_inside (int_box 10 10 90 75)
    (not_bottom_region (ImageBB middle_and_strip)) = true ∧
  strictly_inside (int_box 99 1 1 4)
    (top_strip (ImageBB middle_and_strip)) = true ∧
  gtb (total_area (ImageText middle_and_strip))
      (half_area (ImageBB middle_and_strip)) = false ∧
  (check middle_and_strip_text quiet).1 = Ok true.
Proof. repeat split; vm_compute; reflexivity. Qed.

Lemma check_middle_and_strip_small :
  check small_middle_and_strip_text verbose = (Ok false, verbose).
Proof.
  apply (check_middle_and_strip small_middle_and_strip _ _
           (plain_text (int_box 40 40 60 60)) (plain_text (int_box 10 1 30 4))).
  - vm_compute. reflexivity.
  - reflexivity.
  - eexists _, _. split; [left; split; reflexivity|].
    repeat split; vm_compute; reflexivity.
  - vm_compute. reflexivity.
  - vm_compute. reflexivity.
Defined.

Lemma contains_strict_touching :
  ∃ res : bool,
    contains (box_json (int_box 0 10 50 60)) (box_json (int_box 0 0 100 100))
    = Ok res ∧ res = false.
Proof.
  destruct (contains_strict (int_box 0 10 50 60) (int_box 0 0 100 100))
    as (res & Hres & _ & Htouch).
  exists res. split; [exact Hres|]. apply Htouch. left. reflexivity.
Defined.
End Examples.

(** With IEEE floats the sum of three areas that are not negative depends
    on their order, and so does the verdict: exact sums are needed for the
    order of the text boxes not to matter. *)
Lemma float_order_matters :
  ImageText float_descending = reverse (ImageText float_ascending) ∧
  Forall (λ t, ltb (box_area (TextBB t)) zero = false) (ImageText float_ascending) ∧
  (@check _ _ float_runtime float_ascending_text quiet).1 = Ok true ∧
  (@check _ _ float_runtime float_descending_text quiet).1 = Ok false.
Proof.
  split; [reflexivity|]. split; [|split; vm_compute; reflexivity].
  repeat constructor; vm_compute; reflexivity.
Qed.

(** ** The matcher *)

Section Matching.
Implicit Types (s pre : list ascii) (c : charclass).

Lemma match_lit_Some (l s s' : list ascii) :
  match_lit l s = Some s' ↔ s = l ++ s'.
Proof.
  revert s. induction l as [|a l IH]; intros s; cbn.
  - split; [by intros [= ->]|by intros ->].
  - destruct s as [|b s]; [done|].
    destruct (Ascii.eqb a b) eqn:E.
    + apply Ascii.eqb_eq in E as ->. rewrite IH.
      split; [by intros ->|by intros [= ->]].
    + apply Ascii.eqb_neq in E. split; [done|]. intros [= -> _]. done.
Qed.

(** A successful greedy repetition consumed a run of the class, its
    continuation succeeded on the rest, and consuming one more character,
    where the class allows it, had failed. *)
Lemma match_star_sound {R} c s (k : list ascii → option R) (r : R) :
  match_star c s k = Some r →
  ∃ pre s',
    s = pre ++ s' ∧ Forall (λ a, in_class c a = true) pre ∧ k s' = Some r ∧
    ∀ a s'', s' = a :: s'' → in_class c a = true → match_star c s'' k = None.
Proof.
  induction s as [|a s IH]; cbn; intros H.
  - exists [], []. by repeat split.
  - destruct (in_class c a) eqn:E.
    + destruct (match_star c s k) as [r'|] eqn:Hs.
      * injection H as ->.
        destruct (IH eq_refl) as (pre & s' & -> & Hpre & Hk & Hgreedy).
        exists (a :: pre), s'. repeat split; [by constructor|done..].
      * exists [], (a :: s). repeat split; [done..|].
        by intros ?? [= <- <-] _.
    + exists [], (a :: s). repeat split; [done..|].
      intros ?? [= <- <-] E'. congruence.
Qed.

Lemma match_star_complete {R} c pre s' (k : list ascii → option R) :
  Forall (λ a, in_class c a = true) pre →
  is_Some (k s') →
  is_Some (match_star c (pre ++ s') k).
Proof.
  intros Hpre Hk. induction Hpre as [|a pre Ha _ IH]; cbn.
  - destruct s' as [|a s']; cbn; [done|].
    destruct (in_class c a); [|done].
    by destruct (match_star c s' k).
  - rewrite Ha. destruct IH as [r ->]. done.
Qed.

Lemma take_consumed (x y : list ascii) :
  take (length (x ++ y) - length y) (x ++ y) = x.
Proof.
  rewrite length_app, Nat.add_sub. by rewrite take_app_length.
Qed.

Lemma match_here_PATTERN s :
  match_here PATTERN s = match_star AnyChar s (after_prefix s).
Proof. reflexivity. Qed.

Lemma after_group_Some s s3 g :
  after_group s s3 = Some g →
  g = Some (take (length s - length s3) s) ∧
  ∃ mid post, s3 = mid ++ json_ext ++ post ∧
              Forall (λ a, in_class AnyChar a = true) mid.
Proof.
  intros H. apply match_star_sound in H as (mid & s4 & -> & Hmid & Hk & _).
  destruct (match_lit json_ext s4) as [s5|] eqn:Hlit; [|done].
  apply match_lit_Some in Hlit as ->. injection Hk as <-.
  split; [done|]. by exists mid, s5.
Qed.

Lemma after_group_complete s mid post :
  Forall (λ a, in_class AnyChar a = true) mid →
  is_Some (after_group s (mid ++ json_ext ++ post)).
Proof.
  intros Hmid. apply match_star_complete; [done|].
  by rewrite (proj2 (match_lit_Some json_ext _ post) eq_refl).
Qed.

Lemma match_here_sound s g :
  match_here PATTERN s = Some g →
  ∃ pre d rest,
    figure_split s pre d rest ∧
    g = Some (pre ++ figure_marker ++ d) ∧
    ∀ a rest', rest = a :: rest' → in_class Digit a = false.
Proof.
  rewrite match_here_PATTERN. intros H.
  apply match_star_sound in H as (pre & s1 & Hs & Hpre & Hk & _).
  unfold after_prefix in Hk.
  destruct (match_lit figure_marker s1) as [s2|] eqn:Hlit; [|done].
  apply match_lit_Some in Hlit as ->.
  destruct s2 as [|a s2']; [done|].
  destruct (in_class Digit a) eqn:Ha; [|done].
  apply match_star_sound in Hk as (ds & s3 & -> & Hds & Hk & Hgreedy).
  pose proof Hk as Hk'.
  apply after_group_Some in Hk as (-> & mid & post & Hs3 & Hmid).
  exists pre, (a :: ds), s3. split; [|split].
  - repeat split; [done|done|by constructor|done|by exists mid, post].
  - f_equal.
    assert (s = (pre ++ figure_marker ++ a :: ds) ++ s3) as Hs'
      by (by rewrite Hs, <-!app_assoc).
    rewrite Hs'. apply take_consumed.
  - intros b rest' -> . destruct (in_class Digit b) eqn:Hb; [|done].
    exfalso. specialize (Hgreedy b rest' eq_refl Hb).
    destruct mid as [|m mid'].
    + injection Hs3 as -> _. vm_compute in Hb. done.
    + injection Hs3 as -> ->. apply Forall_cons in Hmid as [_ Hmid].
      destruct (match_star_complete Digit [] (mid' ++ json_ext ++ post)
                  (after_group s)) as [r Hr];
        [done|by apply after_group_complete|].
      pose proof (eq_trans (eq_sym Hr) Hgreedy). done.
Qed.

Lemma match_here_complete s pre d rest :
  figure_split s pre d rest → is_Some (match_here PATTERN s).
Proof.
  intros (-> & Hd & Hds & Hpre & mid & post & -> & Hmid).
  rewrite match_here_PATTERN. apply match_star_complete; [done|].
  unfold after_prefix.
  rewrite (proj2 (match_lit_Some figure_marker _ _) eq_refl).
  destruct d as [|a ds]; [done|]. apply Forall_cons in Hds as [Ha Hds].
  cbn [app]. rewrite Ha. apply match_star_complete; [done|].
  by apply after_group_complete.
Qed.

Lemma search_from_None (r : regex) s :
  (∀ n, match_here r (drop n s) = None) → search_from r s = None.
Proof.
  induction s as [|a s IH]; intros H; pose proof (H 0) as H0;
    cbn [drop] in H0; cbn [search_from]; rewrite H0; [done|].
  apply IH. intros n. apply (H (S n)).
Qed.

Lemma search_from_head (r : regex) s g :
  match_here r s = Some g → search_from r s = Some g.
Proof. intros H. destruct s; cbn; by rewrite H. Qed.

(** On one line a match that starts later can also start at the head. *)
Lemma search_from_one_line s :
  Forall (λ a, in_class AnyChar a = true) s →
  search_from PATTERN s = match_here PATTERN s.
Proof.
  intros Hs. destruct (match_here PATTERN s) as [g|] eqn:E.
  - by apply search_from_head.
  - apply search_from_None. intros n.
    destruct (match_here PATTERN (drop n s)) as [g|] eqn:En; [|done].
    apply match_here_sound in En
      as (pre & d & rest & (Hsplit & Hd & Hds & Hpre & Hrest) & _).
    destruct (match_here_complete s (take n s ++ pre) d rest) as [g' Hg'];
      [|congruence].
    repeat split; [|done|done| |done].
    + by rewrite <-app_assoc, <-Hsplit, take_drop.
    + apply Forall_app. split; [by apply Forall_take|done].
Qed.
End Matching.

(** ** File names *)

Section Names.
#[local] Abbreviation to_list := String.list_ascii_of_string.
#[local] Abbreviation of_list := String.string_of_list_ascii.

Lemma to_list_app (a b : string) : to_list (a +:+ b) = to_list a ++ to_list b.
Proof.
  induction a as [|c a IH]; [done|].
  change (c :: to_list (a +:+ b) = c :: to_list a ++ to_list b).
  by rewrite IH.
Qed.

Lemma of_list_app (x y : list ascii) : of_list (x ++ y) = of_list x +:+ of_list y.
Proof.
  induction x as [|c x IH]; [done|].
  change (String c (of_list (x ++ y)) = String c (of_list x +:+ of_list y)).
  by rewrite IH.
Qed.

Lemma string_app_assoc (a b c : string) : (a +:+ b) +:+ c = a +:+ b +:+ c.
Proof.
  induction a as [|x a IH]; [done|].
  change (String x ((a +:+ b) +:+ c) = String x (a +:+ b +:+ c)).
  by rewrite IH.
Qed.

Lemma of_to_list (s : string) : of_list (to_list s) = s.
Proof. apply String.string_of_list_ascii_of_string. Qed.

Lemma to_of_list (l : list ascii) : to_list (of_list l) = l.
Proof. apply String.list_ascii_of_string_of_list_ascii. Qed.

Lemma identifier_Some (name id : string) :
  identifier name = Some id ↔
  search_from PATTERN (to_list name) = Some (Some (to_list id)).
Proof.
  unfold identifier, search.
  destruct (search_from PATTERN (to_list name)) as [[l|]|]; cbn.
  - split.
    + intros [= <-]. by rewrite to_of_list.
    + intros [= ->]. by rewrite of_to_list.
  - split; intros [=].
  - split; intros [=].
Qed.

Lemma search_from_group (s : list ascii) :
  search_from PATTERN s ≠ Some None.
Proof.
  induction s as [|b s IH]; cbn [search_from].
  - by vm_compute.
  - destruct (match_here PATTERN (b :: s)) as [g'|] eqn:Hm; [|done].
    apply match_here_sound in Hm as (? & ? & ? & _ & -> & _). done.
Qed.

Lemma identifier_is_Some (name : string) :
  is_Some (search_from PATTERN (to_list name)) → is_Some (identifier name).
Proof.
  intros [g Hg]. unfold identifier, search. rewrite Hg.
  destruct g as [l|]; cbn; [done|].
  by apply search_from_group in Hg.
Qed.

(** C8, as the code has it.  The two file names of the specification, and
    every file name on one line: an identifier is the name up to and
    including a run of digits after [-Figure-], all of the run, with
    [.json] in what follows; and a name that has [-Figure-], digits and
    later [.json] yields an identifier. *)
Theorem identifier_extraction :
  identifier "paper123-Figure-7-thumbnail.json" = Some "paper123-Figure-7" ∧
  identifier "paper123-chart.json" = None ∧
  printed "paper123-chart.json" true = [] ∧
  ∀ name : string, one_line name →
    (∀ id, identifier name = Some id →
       ∃ pre d rest,
         id = pre +:+ "-Figure-" +:+ d ∧ digit_run d ∧
         name = id +:+ rest ∧
         no_leading_digit rest ∧ has_json_suffix_text rest) ∧
    (∀ pre d rest,
       name = pre +:+ "-Figure-" +:+ d +:+ rest →
       digit_run d → has_json_suffix_text rest →
       is_Some (identifier name)).
Proof.
  split; [by vm_compute|]. split; [by vm_compute|]. split; [by vm_compute|].
  intros name Hline. split.
  - intros id Hid. apply identifier_Some in Hid.
    rewrite (search_from_one_line _ Hline) in Hid.
    apply match_here_sound in Hid
      as (pre & d & rest & (Hsplit & Hd & Hds & Hpre & mid & post & -> & Hmid)
          & [= Hg] & Hnodigit).
    exists (of_list pre), (of_list d), (of_list (mid ++ json_ext ++ post)).
    assert (id = of_list pre +:+ "-Figure-" +:+ of_list d) as Hid.
    { rewrite <-(of_to_list id), Hg, !of_list_app. done. }
    repeat split.
    + done.
    + destruct d; [done|]. done.
    + by rewrite to_of_list.
    + rewrite Hid, <-(of_to_list name), Hsplit, !of_list_app.
      change (of_list figure_marker) with "-Figure-".
      by rewrite !string_app_assoc.
    + destruct (mid ++ json_ext ++ post) as [|a l] eqn:E; cbn; [done|].
      by apply (Hnodigit a l).
    + exists (of_list mid), (of_list post). by rewrite !of_list_app.
  - intros pre d rest -> [Hd Hds] (mid & post & ->).
    apply identifier_is_Some. rewrite (search_from_one_line _ Hline).
    unfold one_line in Hline. rewrite !to_list_app in Hline.
    apply Forall_app in Hline as [Hpre Hline].
    apply Forall_app in Hline as [_ Hline].
    apply Forall_app in Hline as [_ Hline].
    apply Forall_app in Hline as [Hmid _].
    apply (match_here_complete _ (to_list pre) (to_list d)
             (to_list (mid +:+ ".json" +:+ post))).
    repeat split.
    + by rewrite !to_list_app.
    + destruct d; [done|]. done.
    + done.
    + done.
    + exists (to_list mid), (to_list post). split; [|done].
      by rewrite !to_list_app.
Qed.
(** Against C8: after a line break the identifier is not the file name up
    to the digits. *)
Lemma identifier_two_lines :
  identifier two_line_name = Some "b-Figure-7" ∧
  ¬ ∃ rest, two_line_name = "b-Figure-7" +:+ rest.
Proof.
  split; [by vm_compute|].
  intros [rest H]. vm_compute in H. discriminate H.
Qed.

Lemma identifier_extraction_thumbnail :
  one_line "paper123-Figure-7-thumbnail.json" ∧
  ∃ pre d rest,
    "paper123-Figure-7" = pre +:+ "-Figure-" +:+ d ∧ digit_run d ∧
    "paper123-Figure-7-thumbnail.json" = "paper123-Figure-7" +:+ rest ∧
    no_leading_digit rest ∧ has_json_suffix_text rest.
Proof.
  assert (one_line "paper123-Figure-7-thumbnail.json") as Hline
    by (unfold one_line; vm_compute; repeat constructor).
  split; [exact Hline|].
  destruct identifier_extraction as (_ & _ & _ & H).
  destruct (H _ Hline) as [Hid _]. apply Hid. vm_compute. reflexivity.
Defined.
End Names.

(** * Further properties of the classifier *)

Section Laziness.
Context {num : Type} `{!Number num} `{!Runtime num}.
Implicit Types (a b bounds : box num) (t : text num) (ts : list (text num)).
Implicit Types (junk : list (json num)).

Lemma all_in_border_loop_prefix nt nb top bottom ts junk :
  top && bottom = false →
  all_in_border_loop (box_json nt) (box_json nb) top bottom
    ((text_json <$> ts) ++ junk)
  = if (top || some_text_inside nt ts) && (bottom || some_text_inside nb ts)
    then Ok false
    else all_in_border_loop (box_json nt) (box_json nb)
           (top || some_text_inside nt ts) (bottom || some_text_inside nb ts)
           junk.
Proof.
  revert top bottom. induction ts as [|t ts IH]; intros top bottom Hflags.
  - cbn [fmap list_fmap app some_text_inside existsb].
    by rewrite !orb_false_r, Hflags.
  - rewrite fmap_cons. cbn [app all_in_border_loop].
    rewrite getitem_TextBB. cbn [mbind result_bind].
    rewrite !contains_box. cbn [mbind result_bind some_text_inside existsb].
    fold (some_text_inside nt ts) (some_text_inside nb ts).
    set (p := strictly_inside (TextBB t) nt).
    set (q := strictly_inside (TextBB t) nb).
    destruct ((if p then true else top) && (if q then true else bottom)) eqn:E.
    + destruct p, q, top, bottom; cbn in *; try done.
    + rewrite IH by done.
      destruct p, q, top, bottom; cbn in *; try done.
Qed.

Lemma all_in_border_prefix bounds ts junk :
  all_in_border (box_json bounds) (JArr ((text_json <$> ts) ++ junk))
  = if confined_to_border bounds ts
    then all_in_border_loop (box_json (not_top_region bounds))
           (box_json (not_bottom_region bounds))
           (some_text_inside (not_top_region bounds) ts)
           (some_text_inside (not_bottom_region bounds) ts) junk
    else Ok false.
Proof.
  unfold all_in_border. cbn.
  etrans;
    [exact (all_in_border_loop_prefix (not_top_region bounds)
              (not_bottom_region bounds) false false ts junk eq_refl)|].
  unfold confined_to_border. cbn [orb].
  by destruct (_ && _).
Qed.

(** X1. [all_in_border] stops at the first item at which both flags are
    set: whatever follows the text boxes that decide is not examined, so it
    may be anything. *)
Theorem all_in_border_stops bounds ts junk :
  confined_to_border bounds ts = false →
  all_in_border (box_json bounds) (JArr ((text_json <$> ts) ++ junk)) = Ok false.
Proof. intros H. by rewrite all_in_border_prefix, H. Qed.

(** X2. An item without [TextBB] that the loop of [all_in_border] reaches
    raises [KeyError]: the text boxes before it must leave a flag unset. *)
Theorem all_in_border_missing_TextBB bounds ts (m : gmap string (json num)) junk :
  confined_to_border bounds ts = true →
  m !! "TextBB" = None →
  all_in_border (box_json bounds) (JArr ((text_json <$> ts) ++ JObj m :: junk))
  = Err (KeyError (KStr "TextBB")).
Proof.
  intros H Hm. rewrite all_in_border_prefix, H.
  cbn [all_in_border_loop getitem]. by rewrite Hm.
Qed.

Lemma some_text_inside_subseteq (region : box num) ts ts' :
  ts ⊆ ts' →
  some_text_inside region ts = true → some_text_inside region ts' = true.
Proof.
  intros Hsub. rewrite !some_text_inside_true.
  intros (t & Ht & Hin). exists t. split; [by apply Hsub|done].
Qed.

(** X3. Text boxes can only take a record out of the border rule: when
    [all_in_border] returns true for a list of text boxes, it returns true
    for every list made of some of them. *)
Theorem all_in_border_fewer bounds ts ts' :
  ts ⊆ ts' →
  all_in_border (box_json bounds) (texts_json ts') = Ok true →
  all_in_border (box_json bounds) (texts_json ts) = Ok true.
Proof.
  intros Hsub. rewrite !all_in_border_boxes. intros [= H]. f_equal.
  unfold confined_to_border in *.
  apply negb_true_iff, andb_false_iff in H. apply negb_true_iff, andb_false_iff.
  destruct H as [H|H]; [left|right];
    (destruct (some_text_inside _ ts) eqn:E; [|done]);
    by rewrite (some_text_inside_subseteq _ _ _ Hsub E) in H.
Qed.

Lemma is_sum_larger_loop_prefix (bound s : num) ts junk :
  is_sum_larger_loop (JNum bound) (JNum s) ((text_json <$> ts) ++ junk)
  = if existsb
         (λ k, gtb (foldl (λ s t, add s (box_area (TextBB t))) s (take k ts))
                   bound)
         (seq 1 (length ts))
    then Ok true
    else is_sum_larger_loop (JNum bound)
           (JNum (foldl (λ s t, add s (box_area (TextBB t))) s ts)) junk.
Proof.
  revert s. induction ts as [|t ts IH]; intros s; [done|].
  rewrite fmap_cons. cbn [app is_sum_larger_loop].
  rewrite getitem_TextBB. cbn [mbind result_bind].
  rewrite area_box. cbn [mbind result_bind py_add py_arith as_number py_gt].
  cbn [length seq existsb].
  rewrite (existsb_seq_S _ 1 (length ts)).
  pose proof (IH (add s (box_area (TextBB t)))) as IH'.
  simpl in IH' |- *. rewrite IH'.
  by destruct (gtb (add s (box_area (TextBB t))) bound).
Qed.

(** X4. [is_sum_larger] stops at the first running sum over the bound:
    the items after it are not examined. *)
Theorem is_sum_larger_stops (bound : num) ts junk :
  running_sum_exceeds bound ts = true →
  is_sum_larger (JNum bound) (JArr ((text_json <$> ts) ++ junk)) = Ok true.
Proof.
  intros H. unfold is_sum_larger. cbn [iter mbind result_bind].
  rewrite is_sum_larger_loop_prefix.
  unfold running_sum_exceeds, total_area in H. by rewrite H.
Qed.
End Laziness.

Section Verdicts.
Context {num : Type} `{!Number num} `{!Runtime num}.
Implicit Types (a b bounds : box num) (t : text num) (ts : list (text num)).

(** [check] ends in one of three ways: it raises and writes nothing, it
    returns good and writes nothing, or it returns bad after one
    diagnostic. *)
Lemma check_outcome (json_data : string) (lg : logger) :
  (∃ e, check json_data lg = (Err e, lg)) ∨
  check json_data lg = (Ok false, lg) ∨
  ∃ msg,
    msg ∈ ["No text"; "One text label";
           "All text is in upper or lower border";
           "Almost everything is text"] ∧
    check json_data lg = (Ok true, (logging_debug msg lg).2).
Proof.
  unfold check.
  repeat match goal with
  | |- context [raise_or_return ?r ≫= _] =>
      destruct r eqn:?;
      [ rewrite !(bind_Ok _ _ _ _ eq_refl)
      | rewrite !(bind_Err _ _ _ _ eq_refl); left; by eexists ]
  | |- context [bool_decide ?P] =>
      case_bool_decide;
      [ right; right; eexists; split; [|reflexivity]; set_solver |]
  | |- context [if ?b then _ else _] =>
      destruct b;
      [ right; right; eexists; split; [|reflexivity]; set_solver |]
  end.
  right. by left.
Qed.

(** X5. What [check] writes: one diagnostic, after what was written before,
    when the verdict is bad and debugging is on; nothing when the verdict is
    good, when [check] raises, or when debugging is off.  The debug switch
    is never changed. *)
Theorem check_log (json_data : string) (lg : logger) :
  debug_enabled (check json_data lg).2 = debug_enabled lg ∧
  ∃ msg,
    msg ∈ ["No text"; "One text label";
           "All text is in upper or lower border";
           "Almost everything is text"] ∧
    emitted (check json_data lg).2
    = match (check json_data lg).1 with
      | Ok true => if debug_enabled lg then emitted lg ++ [msg] else emitted lg
      | _ => emitted lg
      end.
Proof.
  destruct (check_outcome json_data lg) as [[e ->]|[->|(msg & Hmsg & ->)]].
  - split; [done|]. exists "No text". split; [set_solver|done].
  - split; [done|]. exists "No text". split; [set_solver|done].
  - unfold logging_debug. cbn [fst snd].
    destruct (debug_enabled lg) eqn:E; (split; [done|]); by exists msg.
Qed.

(** X6. Python's typing of the input: [check] raises [TypeError] when the
    JSON text is not an object, and when [ImageText] is [null], a boolean or
    a number. *)
Theorem check_type_error (json_data : string) (v : json num) (lg : logger) :
  json_loads json_data = Ok v →
  (∀ m, v ≠ JObj m) ∨
  (∃ m texts, v = JObj m ∧ m !! "ImageText" = Some texts ∧
              (texts = JNull ∨ (∃ flag, texts = JBool flag) ∨ ∃ n, texts = JNum n)) →
  check json_data lg = (Err TypeError, lg).
Proof.
  intros Hparse H. unfold check. rewrite (bind_Ok _ _ _ _ Hparse).
  destruct H as [H|(m & texts & -> & Hkey & H)].
  - rewrite (bind_Err (getitem _ _) TypeError); [done|].
    destruct v; try done. by destruct (H m).
  - rewrite (bind_Ok (getitem _ _) texts) by (cbn; by rewrite Hkey).
    rewrite (bind_Err (len _) TypeError); [done|].
    by destruct H as [->|[[flag ->]|[n ->]]].
Qed.

(** X7. Malformed items after the text boxes that decide are not noticed:
    when the first text boxes take the record out of the border rule and
    push the running sum over half the image area, [check] returns bad
    whatever follows them in [ImageText]. *)
Theorem check_ignores_rest (json_data : string) (m : gmap string (json num))
    bounds ts (junk : list (json num)) (lg : logger) :
  json_loads json_data = Ok (JObj m) →
  m !! "ImageBB" = Some (box_json bounds) →
  m !! "ImageText" = Some (JArr ((text_json <$> ts) ++ junk)) →
  confined_to_border bounds ts = false →
  running_sum_exceeds (half_area bounds) ts = true →
  (check json_data lg).1 = Ok true.
Proof.
  intros Hparse Hbb Htexts Hborder Harea. unfold check.
  rewrite (bind_Ok _ _ _ _ Hparse).
  rewrite (bind_Ok (getitem _ _) (JArr ((text_json <$> ts) ++ junk)))
    by (cbn; by rewrite Htexts).
  rewrite (bind_Ok (len (JArr ((text_json <$> ts) ++ junk))) _ _ _ eq_refl).
  case_bool_decide; [done|].
  rewrite (bind_Ok (len (JArr ((text_json <$> ts) ++ junk))) _ _ _ eq_refl).
  case_bool_decide; [done|].
  rewrite (bind_Ok (getitem _ _) (box_json bounds)) by (cbn; by rewrite Hbb).
  rewrite (bind_Ok (all_in_border _ _) false)
    by (by rewrite all_in_border_prefix, Hborder).
  rewrite (bind_Ok (getitem _ _) (box_json bounds)) by (cbn; by rewrite Hbb).
  rewrite (bind_Ok _ _ _ _ (area_box _)).
  rewrite (bind_Ok (py_mul (JNum (box_area bounds)) (JNum lit_0_5))
             (JNum (half_area bounds)) _ _ eq_refl).
  rewrite (bind_Ok (is_sum_larger _ _) true); [done|].
  unfold is_sum_larger. cbn [iter mbind result_bind].
  rewrite is_sum_larger_loop_prefix.
  unfold running_sum_exceeds, total_area in Harea. by rewrite Harea.
Qed.
End Verdicts.

(** ** What the verdict depends on *)

Section Boxes.
Context {num : Type} `{!Number num} `{!Runtime num}.
Implicit Types (a b bounds : box num) (t : text num) (ts : list (text num)).

Lemma existsb_pointwise {A} (f g : A → bool) (l : list A) :
  (∀ x, f x = g x) → existsb f l = existsb g l.
Proof. intros H. induction l as [|x l IH]; cbn; [done|]. by rewrite H, IH. Qed.

Lemma some_text_inside_fmap (region : box num) ts :
  some_text_inside region ts
  = existsb (λ a, strictly_inside a region) (TextBB <$> ts).
Proof.
  unfold some_text_inside. induction ts as [|t ts IH]; cbn; [done|].
  by rewrite IH.
Qed.

Lemma sum_areas_fmap (s : num) ts :
  foldl (λ s t, add s (box_area (TextBB t))) s ts
  = foldl (λ s a, add s (box_area a)) s (TextBB <$> ts).
Proof. revert s. induction ts as [|t ts IH]; intros s; cbn; [done|]. apply IH. Qed.

Lemma running_sum_exceeds_fmap (bound : num) ts :
  running_sum_exceeds bound ts
  = existsb
      (λ k, gtb (foldl (λ s a, add s (box_area a)) zero (take k (TextBB <$> ts)))
                bound)
      (seq 1 (length (TextBB <$> ts))).
Proof.
  unfold running_sum_exceeds, total_area. rewrite length_fmap.
  apply existsb_pointwise. intros k. by rewrite sum_areas_fmap, fmap_take.
Qed.

Lemma rule_chain_same_boxes (r r' : record num) :
  ImageBB r = ImageBB r' →
  TextBB <$> ImageText r = TextBB <$> ImageText r' →
  rule_chain r = rule_chain r'.
Proof.
  intros Hbb Hts. unfold rule_chain, confined_to_border.
  rewrite !some_text_inside_fmap, !running_sum_exceeds_fmap.
  rewrite <-(length_fmap TextBB (ImageText r)).
  rewrite <-(length_fmap TextBB (ImageText r')).
  by rewrite Hbb, Hts.
Qed.

(** X8. The other fields of the record and of its text items do not
    matter: two well-formed records with the same [ImageBB] and the same
    [TextBB]s, in the same order, get the same result and the same
    diagnostic. *)
Theorem check_other_fields (r r' : record num) (json_data json_data' : string)
    (lg : logger) :
  json_loads json_data = Ok (record_json r) →
  json_loads json_data' = Ok (record_json r') →
  ImageBB r = ImageBB r' →
  TextBB <$> ImageText r = TextBB <$> ImageText r' →
  check json_data lg = check json_data' lg.
Proof.
  intros Hparse Hparse' Hbb Hts.
  rewrite (check_record r _ _ Hparse), (check_record r' _ _ Hparse').
  unfold verdict, log_diagnostic.
  by rewrite (rule_chain_same_boxes r r' Hbb Hts).
Qed.
End Boxes.

Section Exact.
Context {num : Type} `{!Number num} `{!ExactNumber num} `{!Runtime num}.
Implicit Types (t : text num) (ts : list (text num)).

(** X9. With exact sums and areas that are not negative, the early exit of
    [is_sum_larger] changes nothing: the result is whether the total area
    exceeds the bound. *)
Theorem is_sum_larger_total (bound : num) ts :
  Forall nonneg_area ts →
  is_sum_larger (JNum bound) (texts_json ts)
  = Ok (match ts with
        | [] => false
        | _ => gtb (total_area ts) bound
        end).
Proof.
  intros Hts. rewrite is_sum_larger_boxes. f_equal.
  unfold running_sum_exceeds, total_area. by apply running_sum_from.
Qed.
End Exact.

(** ** Coordinates, in exact arithmetic *)

Section Rational.
Context `{!Runtime Qc}.
Implicit Types (a b : box Qc) (ts : list (text Qc)) (r : record Qc).
#[local] Open Scope Qc_scope.

Lemma Qclt_add_r (x y d : Qc) : x + d < y + d ↔ x < y.
Proof.
  rewrite (Qclt_minus_iff (x + d)), (Qclt_minus_iff x).
  by replace (y + d + - (x + d)) with (y + - x) by ring.
Qed.

Lemma Qclt_mul_r (x y k : Qc) : 0 < k → x * k < y * k ↔ x < y.
Proof.
  intros Hk. split; [|by apply Qcmult_lt_compat_r].
  intros H. apply Qcnot_le_lt. intros Hle.
  apply (Qcmult_le_compat_r _ _ k) in Hle; [|by apply Qclt_le_weak].
  by apply Qcle_not_lt in Hle.
Qed.

Lemma sum_areas_scaled (F : box Qc → box Qc) (c s : Qc) ts :
  (∀ a, box_area (F a) = box_area a * c) →
  foldl (λ s t, add s (box_area (TextBB t))) (s * c)
        ((λ t, Text (F (TextBB t)) (text_fields t)) <$> ts)
  = foldl (λ s t, add s (box_area (TextBB t))) s ts * c.
Proof.
  intros HF. revert s. induction ts as [|t ts IH]; intros s; [done|].
  cbn [fmap list_fmap foldl TextBB]. rewrite HF.
  replace (add (s * c) (box_area (TextBB t) * c))
    with ((add s (box_area (TextBB t))) * c) by (cbn; ring).
  apply IH.
Qed.

(** A change of coordinates that keeps strict containment, commutes with
    the two shrunken regions and multiplies areas by a positive factor
    keeps the rule that decides. *)
Lemma rule_chain_map_boxes (F : box Qc → box Qc) (c : Qc) r :
  0 < c →
  (∀ a b, strictly_inside (F a) (F b) = strictly_inside a b) →
  (∀ b, not_top_region (F b) = F (not_top_region b)) →
  (∀ b, not_bottom_region (F b) = F (not_bottom_region b)) →
  (∀ a, box_area (F a) = box_area a * c) →
  rule_chain (map_boxes F r) = rule_chain r.
Proof.
  intros Hc Hin Htop Hbottom Harea.
  assert (∀ region ts,
    some_text_inside (F region) ((λ t, Text (F (TextBB t)) (text_fields t)) <$> ts)
    = some_text_inside region ts) as Hsome.
  { intros region ts. unfold some_text_inside.
    induction ts as [|t ts IH]; cbn; [done|]. by rewrite Hin, IH. }
  unfold rule_chain, map_boxes, confined_to_border.
  cbn [ImageBB ImageText]. rewrite length_fmap, Htop, Hbottom, !Hsome.
  replace (running_sum_exceeds (half_area (F (ImageBB r))) _)
    with (running_sum_exceeds (half_area (ImageBB r)) (ImageText r)); [done|].
  unfold running_sum_exceeds. rewrite length_fmap.
  apply existsb_pointwise. intros k.
  unfold total_area, half_area. rewrite <-fmap_take.
  replace (zero : Qc) with ((zero : Qc) * c) at 2 by (cbn; ring).
  rewrite sum_areas_scaled by done. rewrite Harea.
  replace (mul (box_area (ImageBB r) * c) lit_0_5)
    with (mul (box_area (ImageBB r)) lit_0_5 * c) by (cbn; ring).
  cbn [gtb Qc_number]. apply bool_decide_ext. symmetry. by apply Qclt_mul_r.
Qed.


End Rational.

(** * Further properties of the identifier *)

Section Greedy.
Implicit Types (s pre : list ascii) (c : charclass).

(** The greedy repetition succeeds with the longest run for which the
    continuation succeeds. *)
Lemma match_star_longest {R} c s (k : list ascii → option R) (r : R) :
  match_star c s k = Some r →
  ∃ pre s',
    s = pre ++ s' ∧ Forall (λ a, in_class c a = true) pre ∧ k s' = Some r ∧
    ∀ pre2 s2, s = pre2 ++ s2 → Forall (λ a, in_class c a = true) pre2 →
               length pre < length pre2 → k s2 = None.
Proof.
  induction s as [|a s IH]; cbn; intros H.
  - exists [], []. repeat split; [done..|].
    intros pre2 s2 Hs _ Hlen. symmetry in Hs.
    apply app_eq_nil in Hs as [-> _]. cbn in Hlen. lia.
  - destruct (in_class c a) eqn:E.
    + destruct (match_star c s k) as [r'|] eqn:Hs.
      * injection H as ->.
        destruct (IH eq_refl) as (pre & s' & -> & Hpre & Hk & Hlong).
        exists (a :: pre), s'. repeat split; [by constructor|done|].
        intros pre2 s2 Hs2 Hpre2 Hlen.
        destruct pre2 as [|a2 pre2]; [cbn in Hlen; lia|].
        injection Hs2 as <- Hs2. apply Forall_cons in Hpre2 as [_ Hpre2].
        apply (Hlong pre2 s2 Hs2 Hpre2). cbn in Hlen. lia.
      * exists [], (a :: s). repeat split; [done..|].
        intros pre2 s2 Hs2 Hpre2 Hlen.
        destruct pre2 as [|a2 pre2]; [cbn in Hlen; lia|].
        injection Hs2 as <- ->. apply Forall_cons in Hpre2 as [_ Hpre2].
        destruct (k s2) eqn:Hk; [|done].
        destruct (match_star_complete c pre2 s2 k Hpre2) as [? ?];
          [by eexists|congruence].
    + exists [], (a :: s). repeat split; [done..|].
      intros pre2 s2 Hs2 Hpre2 Hlen.
      destruct pre2 as [|a2 pre2]; [cbn in Hlen; lia|].
      injection Hs2 as <- ->. apply Forall_cons in Hpre2 as [Ha _]. congruence.
Qed.

(** After a shorter prefix the marker cannot start inside [-Figure-] and
    its digits again. *)
Lemma no_marker_inside (o : nat) (d : list ascii) :
  1 ≤ o → Forall (λ a, in_class Digit a = true) d →
  take 8 (drop o (figure_marker ++ d)) ≠ figure_marker.
Proof.
  intros Ho Hd H.
  do 8 (destruct o as [|o]; [first [lia | cbn in H; try discriminate H]|]).
  - (* the marker would start at the last [-] of the marker *)
    destruct d as [|a d]; [discriminate H|].
    apply Forall_cons in Hd as [Ha _]. injection H as -> _.
    vm_compute in Ha. discriminate Ha.
  - change (drop (S (S (S (S (S (S (S (S o)))))))) (figure_marker ++ d))
      with (drop o d) in H.
    assert (Forall (λ a, in_class Digit a = true) figure_marker) as Hm.
    { rewrite <-H. by apply Forall_take, Forall_drop. }
    apply Forall_cons in Hm as [Hm _]. vm_compute in Hm. discriminate Hm.
Qed.

(** The match at the head of [s] takes the longest of the candidates. *)
Lemma match_here_longest s (id : list ascii) pre' d' rest' :
  match_here PATTERN s = Some (Some id) →
  figure_split s pre' d' rest' →
  length (pre' ++ figure_marker ++ d') ≤ length id.
Proof.
  rewrite match_here_PATTERN. intros H Hcand.
  apply match_star_longest in H as (pre & s1 & Hs & Hpre & Hk & Hlong).
  unfold after_prefix in Hk.
  destruct (match_lit figure_marker s1) as [s2|] eqn:Hlit; [|done].
  apply match_lit_Some in Hlit as ->.
  destruct s2 as [|a s2']; [done|].
  destruct (in_class Digit a) eqn:Ha; [|done].
  apply match_star_sound in Hk as (ds & s3 & -> & Hds & Hk & Hgreedy).
  apply after_group_Some in Hk as ([= ->] & mid & post & Hs3 & Hmid).
  assert (s = (pre ++ figure_marker ++ a :: ds) ++ s3) as Hs'
    by (by rewrite Hs, <-!app_assoc).
  rewrite Hs', take_consumed. clear Hs'.
  destruct Hcand as (Hs' & Hd' & Hds' & Hpre' & mid' & post' & Hrest' & Hmid').
  assert (is_Some (after_prefix s (figure_marker ++ d' ++ rest'))) as Hok.
  { unfold after_prefix.
    rewrite (proj2 (match_lit_Some figure_marker _ _) eq_refl).
    destruct d' as [|a' ds']; [done|]. apply Forall_cons in Hds' as [Ha' Hds'].
    cbn [app]. rewrite Ha'. apply match_star_complete; [done|].
    rewrite Hrest'. by apply after_group_complete. }
  assert (length pre' ≤ length pre) as Hle.
  { destruct (decide (length pre < length pre')) as [Hlt|]; [|lia].
    rewrite (Hlong pre' _ Hs' Hpre' Hlt) in Hok. by destruct Hok. }
  rewrite !length_app. cbn [length].
  destruct (decide (length pre' + (length figure_marker + length d')
                    ≤ length pre + (length figure_marker + S (length ds))))
    as [|Hgt]; [done|exfalso].
  destruct (decide (length pre' = length pre)) as [Heq|Hne].
  - (* the same prefix: the digits of the match are all the digits *)
    assert (pre' = pre ∧ figure_marker ++ d' ++ rest' = figure_marker ++ a :: ds ++ s3)
      as [-> Htail].
    { apply app_inj_1; [done|]. by rewrite <-Hs', <-Hs. }
    apply app_inv_head in Htail.
    assert (length (a :: ds) < length d') as Hlen by (cbn; lia).
    assert (d' = (a :: ds) ++ drop (length (a :: ds)) d') as Hd'eq.
    { rewrite <-(take_drop (length (a :: ds)) d') at 1. f_equal.
      apply (f_equal (take (length (a :: ds)))) in Htail.
      rewrite take_app_le in Htail by lia.
      change (a :: ds ++ s3) with ((a :: ds) ++ s3) in Htail.
      by rewrite take_app_length in Htail. }
    destruct (drop (length (a :: ds)) d') as [|b tl] eqn:Hdrop.
    { apply (f_equal length) in Hdrop. rewrite length_drop in Hdrop.
      cbn in Hdrop, Hlen. lia. }
    assert (in_class Digit b = true) as Hb.
    { rewrite Hd'eq in Hds'. apply Forall_app in Hds' as [_ Hds'].
      by apply Forall_cons in Hds' as [Hb _]. }
    rewrite Hd'eq in Htail. rewrite <-app_assoc in Htail.
    change (a :: ds ++ s3) with ((a :: ds) ++ s3) in Htail.
    apply app_inv_head in Htail. cbn in Htail.
    specialize (Hgreedy b (tl ++ rest') (eq_sym Htail) Hb).
    destruct mid as [|m mid0].
    + rewrite Hs3 in Htail. injection Htail as -> _.
      vm_compute in Hb. discriminate Hb.
    + rewrite Hs3 in Htail. injection Htail as -> Htail.
      apply Forall_cons in Hmid as [_ Hmid].
      destruct (match_star_complete Digit [] (mid0 ++ json_ext ++ post)
                  (after_group s)) as [r Hr];
        [done|by apply after_group_complete|].
      rewrite Htail in Hgreedy.
      pose proof (eq_trans (eq_sym Hr) Hgreedy). done.
  - (* a shorter prefix: the marker of the match would lie in its digits *)
    apply (no_marker_inside (length pre - length pre') d'); [lia|done|].
    assert (drop (length pre) s = figure_marker ++ a :: ds ++ s3) as Hdrop
      by (by rewrite Hs, drop_app_length).
    assert (drop (length pre) s
            = drop (length pre - length pre') (figure_marker ++ d') ++ rest')
      as Hdrop'.
    { rewrite Hs'. rewrite drop_app_ge by lia.
      rewrite (app_assoc figure_marker d' rest').
      apply drop_app_le. rewrite length_app. lia. }
    rewrite Hdrop in Hdrop'.
    apply (f_equal (take 8)) in Hdrop'.
    rewrite (take_app_le figure_marker) in Hdrop' by (cbn; lia).
    rewrite (take_app_le (drop _ _)) in Hdrop'
      by (rewrite length_drop, length_app;
          change (length figure_marker) with 8 in *; lia).
    rewrite <-Hdrop'. reflexivity.
Qed.
End Greedy.

Section Identifiers.
#[local] Abbreviation chars_of := String.list_ascii_of_string.
#[local] Abbreviation string_of := String.string_of_list_ascii.

(** The leftmost match: it starts after [skipped], and at no earlier
    place. *)
Lemma search_from_sound (r : regex) (s : list ascii) g :
  search_from r s = Some g →
  ∃ skipped s',
    s = skipped ++ s' ∧ match_here r s' = Some g ∧
    ∀ n, n < length skipped → match_here r (drop n s) = None.
Proof.
  induction s as [|a s IH]; cbn [search_from].
  - destruct (match_here r []) as [g'|] eqn:E; [|done].
    intros [= ->]. exists [], []. repeat split; [done|]. cbn. lia.
  - destruct (match_here r (a :: s)) as [g'|] eqn:E.
    + intros [= ->]. exists [], (a :: s). repeat split; [done|]. cbn. lia.
    + intros H. destruct (IH H) as (skipped & s' & -> & Hm & Hleft).
      exists (a :: skipped), s'. repeat split; [done|].
      intros [|n] Hn; [done|]. cbn in Hn |- *. apply Hleft. lia.
Qed.

Lemma digit_not_newline (a : ascii) :
  in_class Digit a = true → in_class AnyChar a = true.
Proof.
  intros H. cbn. destruct (Ascii.eqb a newline) eqn:E; [|done].
  apply Ascii.eqb_eq in E as ->. vm_compute in H. discriminate H.
Qed.

Lemma figure_split_one_line (s pre d rest : list ascii) :
  figure_split s pre d rest →
  Forall (λ a, in_class AnyChar a = true) (pre ++ figure_marker ++ d).
Proof.
  intros (_ & _ & Hd & Hpre & _).
  apply Forall_app. split; [done|]. apply Forall_app. split.
  - repeat constructor.
  - eapply Forall_impl; [exact Hd|]. apply digit_not_newline.
Qed.

Lemma figure_split_rest_length (s pre d rest : list ascii) :
  figure_split s pre d rest → 5 ≤ length rest.
Proof.
  intros (_ & _ & _ & _ & mid & post & -> & _).
  rewrite !length_app. change (length json_ext) with 5. lia.
Qed.

(** X12. The shape of an identifier, for every file name: it is a piece of
    the name that starts at the beginning of the name or of one of its
    lines, has no line break, ends with [-Figure-] and a run of digits, and
    is followed by no digit and, later, by [.json]. *)
Theorem identifier_shape (name id : string) :
  identifier name = Some id →
  ∃ skipped pre d rest,
    name = skipped +:+ id +:+ rest ∧
    (skipped = EmptyString ∨
     ∃ before, skipped = before +:+ String newline EmptyString) ∧
    id = pre +:+ "-Figure-" +:+ d ∧ digit_run d ∧ one_line id ∧
    no_leading_digit rest ∧ has_json_suffix_text rest.
Proof.
  intros Hid. apply identifier_Some in Hid.
  apply search_from_sound in Hid as (skipped & s' & Hname & Hm & Hleft).
  pose proof Hm as Hm'.
  apply match_here_sound in Hm as (pre & d & rest & Hsplit & [= Hg] & Hnodigit).
  pose proof (figure_split_one_line _ _ _ _ Hsplit) as Hline.
  pose proof Hsplit as (Hs' & Hd & Hds & Hpre & mid & post & Hrest & Hmid).
  assert (id = string_of pre +:+ "-Figure-" +:+ string_of d) as Hid.
  { rewrite <-(of_to_list id), Hg, !of_list_app. done. }
  exists (string_of skipped), (string_of pre), (string_of d), (string_of rest).
  split; [|split; [|split; [|split; [|split; [|split]]]]].
  - rewrite Hid, <-(of_to_list name), Hname, Hs', !of_list_app.
    change (string_of figure_marker) with "-Figure-".
    by rewrite !string_app_assoc.
  - destruct (decide (skipped = [])) as [->|Hne]; [by left|right].
    destruct (exists_last Hne) as (before & a & ->).
    exists (string_of before). rewrite of_list_app. f_equal. cbn. f_equal.
    destruct (Ascii.eqb a newline) eqn:E; [by apply Ascii.eqb_eq in E|].
    exfalso.
    pose proof (Hleft (length before)) as Hnone.
    rewrite length_app in Hnone. cbn in Hnone.
    specialize (Hnone ltac:(lia)).
    rewrite Hname, <-app_assoc, drop_app_length in Hnone.
    destruct (match_here_complete ([a] ++ s') (a :: pre) d rest) as [g' Hg'];
      [|by pose proof (eq_trans (eq_sym Hg') Hnone)].
    repeat split; [by rewrite Hs'|done|done| |by exists mid, post].
    constructor; [|done]. cbn. by rewrite E.
  - done.
  - split; [by destruct d|by rewrite to_of_list].
  - unfold one_line. by rewrite Hg.
  - destruct rest as [|a l] eqn:E; cbn; [done|]. by apply (Hnodigit a l).
  - exists (string_of mid), (string_of post). by rewrite Hrest, !of_list_app.
Qed.

(** X13. Of several places in a name on one line where [-Figure-], digits
    and a later [.json] are found, the identifier takes the last: no such
    piece of the name is longer than the identifier. *)
Theorem identifier_longest (name id pre d rest : string) :
  one_line name →
  identifier name = Some id →
  name = pre +:+ "-Figure-" +:+ d +:+ rest →
  digit_run d → has_json_suffix_text rest →
  String.length (pre +:+ "-Figure-" +:+ d) ≤ String.length id.
Proof.
  intros Hline Hid -> [Hd Hds] (mid & post & ->).
  apply identifier_Some in Hid. rewrite (search_from_one_line _ Hline) in Hid.
  unfold one_line in Hline. rewrite !to_list_app in Hline.
  pose proof Hline as Hline'.
  apply Forall_app in Hline' as [Hpre Hline'].
  apply Forall_app in Hline' as [_ Hline'].
  apply Forall_app in Hline' as [_ Hline'].
  apply Forall_app in Hline' as [Hmid _].
  assert (∀ s : string, String.length s = length (chars_of s)) as Hlen.
  { intros s. induction s as [|a s IH]; cbn; [done|]. by rewrite IH. }
  rewrite !Hlen, !to_list_app.
  apply (match_here_longest _ _ (chars_of pre) (chars_of d)
           (chars_of (mid +:+ ".json" +:+ post)) Hid).
  repeat split.
  - by rewrite !to_list_app.
  - by destruct d.
  - done.
  - done.
  - exists (chars_of mid), (chars_of post). split; [|done].
    by rewrite !to_list_app.
Qed.

(** X14. Round trip: the file named after an identifier, [id.json], has
    that identifier. *)
Theorem identifier_round_trip (name id : string) :
  identifier name = Some id →
  identifier (id +:+ ".json") = Some id.
Proof.
  intros Hid. apply identifier_Some in Hid.
  apply search_from_sound in Hid as (skipped & s' & _ & Hm & _).
  apply match_here_sound in Hm as (pre & d & rest & Hsplit & [= Hg] & _).
  pose proof (figure_split_one_line _ _ _ _ Hsplit) as Hline.
  destruct Hsplit as (_ & Hd & Hds & Hpre & _).
  assert (figure_split (chars_of id ++ json_ext) pre d json_ext) as Hcand.
  { repeat split; [by rewrite Hg, <-!app_assoc|done..|].
    exists [], []. by rewrite app_nil_r. }
  apply identifier_Some. rewrite to_list_app.
  change (chars_of ".json") with json_ext.
  apply search_from_head.
  destruct (match_here_complete _ _ _ _ Hcand) as [g Hmatch].
  rewrite Hmatch. f_equal.
  pose proof Hmatch as Hmatch'.
  apply match_here_sound in Hmatch'
    as (pre2 & d2 & rest2 & Hsplit2 & -> & _).
  f_equal.
  pose proof (match_here_longest _ _ _ _ _ Hmatch Hcand) as Hlong.
  pose proof (figure_split_rest_length _ _ _ _ Hsplit2) as Hrest2.
  destruct Hsplit2 as (Hs2 & _).
  assert ((pre2 ++ figure_marker ++ d2) ++ rest2 = chars_of id ++ json_ext)
    as Heq by (by rewrite Hs2, <-!app_assoc).
  assert (length (pre2 ++ figure_marker ++ d2) = length (chars_of id)) as Hlen.
  { pose proof (f_equal length Heq) as HL. rewrite !length_app in HL.
    change (length json_ext) with 5 in HL.
    assert (length (chars_of id) ≤ length (pre2 ++ figure_marker ++ d2))
      as Hlong' by (rewrite Hg; exact Hlong).
    rewrite !length_app in Hlong' |- *. lia. }
  by apply (app_inj_1 _ _ _ _ Hlen) in Heq as [Heq _].
Qed.
End Identifiers.

(** * The scans *)

Section ScanProperties.
Context {num : Type} `{!Number num} `{!Runtime num} `{!Platform}.
Implicit Types (c : console) (e : dir_entry) (key : s3_key).

Lemma check_result_state (json_data : string) (lg lg' : logger) :
  (check json_data lg).1 = (check json_data lg').1.
Proof.
  unfold check.
  repeat match goal with
  | |- context [raise_or_return ?r ≫= _] =>
      destruct r eqn:?;
      [ rewrite !(bind_Ok _ _ _ _ eq_refl)
      | by rewrite !(bind_Err _ _ _ _ eq_refl) ]
  | |- context [bool_decide ?P] => case_bool_decide; [done|]
  | |- context [if ?b then _ else _] => destruct b; [done|]
  end.
  done.
Qed.

Lemma prints_nil c : prints [] c c.
Proof. split; [by rewrite app_nil_r|done]. Qed.

Lemma prints_app lines lines' c c' c'' :
  prints lines c c' → prints lines' c' c'' → prints (lines ++ lines') c c''.
Proof.
  intros [H1 H2] [H3 H4]. split; [|congruence].
  by rewrite H3, H1, app_assoc.
Qed.

Lemma call_check_classify (json_data : string) c :
  ∃ c', call_check json_data c
        = (match classify json_data with
           | Ok bad => Returned bad
           | Err x => Failed (Raised x)
           end, c') ∧ prints [] c c'.
Proof.
  unfold call_check, classify.
  rewrite (check_result_state json_data (Logger false []) (console_log c)).
  destruct (check json_data (console_log c)) as [[bad|x] lg];
    eexists; (split; [reflexivity|]); (split; cbn; [by rewrite app_nil_r|done]).
Qed.

Lemma report_prints (name : string) c :
  ∃ c', report name c = (Returned (), c') ∧ prints (name_lines name) c c'.
Proof.
  unfold report, name_lines.
  destruct (search PATTERN name) as [[id|]|];
    eexists; (split; [reflexivity|]); try done. apply prints_nil.
Qed.

(** A file that is checked, or skipped: what the body of either loop does
    with it. *)
Lemma checked_step (name : string) (checked : option string) c :
  let step : IO unit :=
    match checked with
    | Some contents =>
        bad ← call_check contents;
        if bad : bool then report name else mret ()
    | None => mret ()
    end in
  ∃ c',
    match checked with
    | Some contents =>
        match classify contents with
        | Ok _ => step c = (Returned (), c') ∧ prints (checked_lines name checked) c c'
        | Err x => step c = (Failed (Raised x), c') ∧ prints [] c c'
        end
    | None => step c = (Returned (), c') ∧ prints [] c c'
    end.
Proof.
  destruct checked as [contents|]; cbn zeta.
  2: { exists c. split; [done|apply prints_nil]. }
  destruct (call_check_classify contents c) as (c1 & Hcall & Hc1).
  unfold mbind, IO_bind. rewrite Hcall. unfold checked_lines.
  destruct (classify contents) as [[|]|x].
  - destruct (report_prints name c1) as (c2 & Hreport & Hc2).
    exists c2. split; [done|]. apply (prints_app [] _ c c1 c2 Hc1 Hc2).
  - exists c1. done.
  - exists c1. done.
Qed.

Lemma run_local_entry_step e c :
  ∃ c',
    match local_checked e with
    | Some contents =>
        match classify contents with
        | Ok _ => run_local_entry e c = (Returned (), c') ∧
                  prints (local_lines e) c c'
        | Err x => run_local_entry e c = (Failed (Raised x), c') ∧
                   prints [] c c'
        end
    | None => run_local_entry e c = (Returned (), c') ∧ prints [] c c'
    end.
Proof.
  pose proof (checked_step (entry_name e) (local_checked e) c) as Hstep.
  unfold run_local_entry, local_lines, local_checked in *.
  destruct (entry_file e) as [contents|]; [|exact Hstep].
  destruct (decide _); exact Hstep.
Qed.

Lemma run_local_returns (entries : list dir_entry) c :
  Forall (λ e, checkable (local_checked e)) entries →
  ∃ c', run_local entries c = (Returned (), c') ∧
        prints (entries ≫= local_lines) c c'.
Proof.
  intros Hok. revert c. induction Hok as [|e entries He _ IH]; intros c.
  - exists c. split; [done|apply prints_nil].
  - cbn [run_local]. unfold mbind at 1, IO_bind.
    destruct (run_local_entry_step e c) as (c1 & Hstep).
    assert (run_local_entry e c = (Returned (), c1) ∧ prints (local_lines e) c c1)
      as [-> Hc1].
    { unfold local_lines in *. destruct (local_checked e) as [contents|]; [|done].
      destruct He as [bad Hbad]. by rewrite Hbad in Hstep. }
    destruct (IH c1) as (c2 & -> & Hc2). exists c2. split; [done|].
    rewrite bind_cons. by apply (prints_app _ _ c c1 c2).
Qed.

(** X15. When [check] returns on every file it is given, [run_local]
    returns and has printed, in the order of the listing, the identifier of
    each regular file with the extension [.json] that is classified bad and
    whose name matches the pattern; it prints nothing else. *)
Theorem run_local_prints (entries : list dir_entry) c :
  Forall (λ e, checkable (local_checked e)) entries →
  ∃ c', run_local entries c = (Returned (), c') ∧
        stdout c' = stdout c ++ (entries ≫= local_lines) ∧
        stderr c' = stderr c.
Proof.
  intros Hok. destruct (run_local_returns entries c Hok) as (c' & Hrun & Hc').
  by exists c'.
Qed.

Lemma run_local_app (entries entries' : list dir_entry) c :
  run_local (entries ++ entries') c
  = match run_local entries c with
    | (Returned _, c') => run_local entries' c'
    | (Failed x, c') => (Failed x, c')
    end.
Proof.
  revert c. induction entries as [|e entries IH]; intros c; [done|].
  cbn [app run_local]. unfold mbind, IO_bind.
  destruct (run_local_entry e c) as [[[]|x] c1]; [apply IH|done].
Qed.

(** X16. An exception of [check] ends the scan: [run_local] fails with it
    at the first file on which [check] raises, with the lines of the files
    before it printed, and does not look at the files after it. *)
Theorem run_local_aborts (before after : list dir_entry) e
    (contents : string) (x : exn) c :
  Forall (λ e, checkable (local_checked e)) before →
  local_checked e = Some contents →
  classify contents = Err x →
  ∃ c', run_local (before ++ e :: after) c = (Failed (Raised x), c') ∧
        stdout c' = stdout c ++ (before ≫= local_lines) ∧
        stderr c' = stderr c.
Proof.
  intros Hbefore He Hx. rewrite run_local_app.
  destruct (run_local_returns before c Hbefore) as (c1 & -> & Hc1).
  cbn [run_local]. unfold mbind, IO_bind.
  destruct (run_local_entry_step e c1) as (c2 & Hstep).
  rewrite He, Hx in Hstep. destruct Hstep as [-> Hc2].
  exists c2. pose proof (prints_app _ _ _ _ _ Hc1 Hc2) as [? ?].
  split; [done|]. by rewrite app_nil_r in *.
Qed.

Lemma logging_info_prints (msg : string) c :
  ∃ c', logging_info msg c = (Returned (), c') ∧ prints [] c c'.
Proof.
  unfold logging_info. destruct (debug_enabled (console_log c));
    eexists; (split; [reflexivity|]); (split; cbn; [by rewrite app_nil_r|done]).
Qed.

Lemma logging_error_prints (msg : string) c :
  ∃ c', logging_error msg c = (Returned (), c') ∧ prints [] c c'.
Proof.
  eexists. split; [reflexivity|]. split; cbn; [by rewrite app_nil_r|done].
Qed.

Lemma run_s3_key_body (path : string) (chunk of_ : Z) (i : nat) key c :
  of_ ≠ 0%Z →
  ∃ c0, prints [] c c0 ∧
    run_s3_key path chunk of_ i key c
    = (if decide (Z.of_nat i `mod` of_ = chunk)%Z then
         if decide (strip_slashes (key_name key) = strip_slashes path) then
           mret ()
         else if decide ((splitext (key_name key)).2 = ".json") then
           bad ← call_check (key_contents key);
           if bad : bool then report (basename (key_name key)) else mret ()
         else logging_error ("Not a json file " +:+ key_name key)
       else mret ()) c0.
Proof.
  intros Hof.
  assert (∃ c0,
    (if decide (i `mod` 1000 = 0)%nat
     then logging_info ("Processing number " +:+ pretty i +:+ " after " +:+
                        elapsed i +:+ " seconds")
     else mret ()) c = (Returned (), c0) ∧ prints [] c c0) as (c0 & Hinfo & Hc0).
  { destruct (decide _); [apply logging_info_prints|].
    exists c. split; [done|apply prints_nil]. }
  exists c0. split; [done|]. unfold run_s3_key.
  unfold mbind at 1, IO_bind at 1. rewrite Hinfo.
  unfold mbind at 1, IO_bind at 1, py_mod.
  by destruct (decide (of_ = 0)%Z).
Qed.

Lemma run_s3_key_step (path : string) (chunk of_ : Z) (i : nat) key c :
  of_ ≠ 0%Z →
  ∃ c',
    match (if decide (Z.of_nat i `mod` of_ = chunk)%Z
           then s3_checked path key else None) with
    | Some contents =>
        match classify contents with
        | Ok _ => run_s3_key path chunk of_ i key c = (Returned (), c') ∧
                  prints (s3_lines path key) c c'
        | Err x => run_s3_key path chunk of_ i key c = (Failed (Raised x), c') ∧
                   prints [] c c'
        end
    | None => run_s3_key path chunk of_ i key c = (Returned (), c') ∧
              prints [] c c'
    end.
Proof.
  intros Hof.
  destruct (run_s3_key_body path chunk of_ i key c Hof) as (c0 & Hc0 & ->).
  destruct (decide (Z.of_nat i `mod` of_ = chunk)%Z) as [_|_].
  2: { exists c0. done. }
  pose proof (checked_step (basename (key_name key)) (s3_checked path key) c0)
    as (c1 & Hstep).
  unfold s3_lines, s3_checked in *.
  destruct (decide (strip_slashes (key_name key) = strip_slashes path)).
  { exists c0. done. }
  destruct (decide ((splitext (key_name key)).2 = ".json")).
  - cbn zeta in Hstep. destruct (classify (key_contents key)) as [bad|x].
    + destruct Hstep as [-> Hc1]. exists c1. split; [done|].
      apply (prints_app [] _ c c0 c1 Hc0 Hc1).
    + destruct Hstep as [-> Hc1]. exists c1. split; [done|].
      apply (prints_app [] _ c c0 c1 Hc0 Hc1).
  - destruct (logging_error_prints ("Not a json file " +:+ key_name key) c0)
      as (c2 & -> & Hc2).
    exists c2. split; [done|]. apply (prints_app [] _ c c0 c2 Hc0 Hc2).
Qed.

Lemma run_s3_loop_returns (path : string) (chunk of_ : Z) (i : nat)
    (keys : list s3_key) c :
  of_ ≠ 0%Z →
  Forall (λ key, checkable (s3_checked path key)) (part chunk of_ i keys) →
  ∃ c', run_s3_loop path chunk of_ i keys c = (Returned (), c') ∧
        prints (part chunk of_ i keys ≫= s3_lines path) c c'.
Proof.
  intros Hof. revert i c. induction keys as [|key keys IH]; intros i c Hok.
  - exists c. split; [done|apply prints_nil].
  - cbn [run_s3_loop part] in *. unfold mbind at 1, IO_bind at 1.
    destruct (run_s3_key_step path chunk of_ i key c Hof) as (c1 & Hstep).
    destruct (decide (Z.of_nat i `mod` of_ = chunk)%Z).
    + apply Forall_cons in Hok as [Hkey Hok].
      assert (run_s3_key path chunk of_ i key c = (Returned (), c1) ∧
              prints (s3_lines path key) c c1) as [-> Hc1].
      { unfold s3_lines in *.
        destruct (s3_checked path key) as [contents|]; [|done].
        destruct Hkey as [bad Hbad]. by rewrite Hbad in Hstep. }
      destruct (IH (S i) c1 Hok) as (c2 & -> & Hc2). exists c2.
      split; [done|]. rewrite bind_cons. by apply (prints_app _ _ c c1 c2).
    + destruct Hstep as [-> Hc1].
      destruct (IH (S i) c1 Hok) as (c2 & -> & Hc2). exists c2.
      split; [done|]. by apply (prints_app [] _ c c1 c2).
Qed.

Lemma print_stderr_run (path : string) (chunk of_ : Z) (keys : list s3_key) c :
  run_s3 path chunk of_ keys c
  = run_s3_loop path chunk of_ 0 keys
      (Console (console_log c) (stdout c)
         (stderr c ++ ["Run " +:+ pretty chunk +:+ " of " +:+ pretty of_])).
Proof. reflexivity. Qed.

(** X17. When [of] is not 0 and [check] returns on every file of the part
    it is given, [run_s3] returns and has printed the identifiers of the
    bad, matching [.json] keys of its part, those whose index [i] has
    [i % of == chunk], in their order; the key of the directory itself is
    skipped. *)
Theorem run_s3_prints (path : string) (chunk of_ : Z) (keys : list s3_key) c :
  of_ ≠ 0%Z →
  Forall (λ key, checkable (s3_checked path key)) (part chunk of_ 0 keys) →
  ∃ c', run_s3 path chunk of_ keys c = (Returned (), c') ∧
        stdout c' = stdout c ++ (part chunk of_ 0 keys ≫= s3_lines path) ∧
        stderr c' = stderr c ++ ["Run " +:+ pretty chunk +:+ " of " +:+ pretty of_].
Proof.
  intros Hof Hok. rewrite print_stderr_run.
  destruct (run_s3_loop_returns path chunk of_ 0 keys
              (Console (console_log c) (stdout c)
                 (stderr c ++ ["Run " +:+ pretty chunk +:+ " of " +:+ pretty of_]))
              Hof Hok) as (c' & Hrun & Hout & Herr).
  by exists c'.
Qed.

(** X18. With [of] 0 the first key raises [ZeroDivisionError], before any
    file is read: nothing is printed.  Without keys [run_s3] returns. *)
Theorem run_s3_of_zero (path : string) (chunk : Z) (keys : list s3_key) c :
  ∃ c', run_s3 path chunk 0 keys c
        = (match keys with
           | [] => Returned ()
           | _ => Failed ZeroDivisionError
           end, c') ∧
        stdout c' = stdout c.
Proof.
  rewrite print_stderr_run. destruct keys as [|key keys].
  - eexists. split; [reflexivity|done].
  - cbn [run_s3_loop]. unfold run_s3_key.
    unfold mbind at 1, IO_bind at 1. unfold mbind at 1, IO_bind at 1.
    set (c0 := Console _ _ _).
    destruct (decide (0 `mod` 1000 = 0)%nat) as [_|Hne]; [|done].
    destruct (logging_info_prints
                ("Processing number " +:+ pretty 0%nat +:+ " after " +:+
                 elapsed 0 +:+ " seconds") c0) as (c1 & -> & Hout & _).
    exists c1. split; [done|]. rewrite Hout. subst c0. cbn. by rewrite app_nil_r.
Qed.

Lemma part_out_of_range (chunk of_ : Z) (i : nat) (keys : list s3_key) :
  (0 < of_ ∧ (chunk < 0 ∨ of_ ≤ chunk) ∨
   of_ < 0 ∧ (0 < chunk ∨ chunk ≤ of_))%Z →
  part chunk of_ i keys = [].
Proof.
  intros Hrange. revert i. induction keys as [|key keys IH]; intros i; [done|].
  cbn [part]. destruct (decide _) as [Heq|_]; [|apply IH].
  exfalso. destruct Hrange as [[Hof Hc]|[Hof Hc]].
  - pose proof (Z.mod_pos_bound (Z.of_nat i) of_ Hof). lia.
  - pose proof (Z.mod_neg_bound (Z.of_nat i) of_ Hof). lia.
Qed.

(** X19. A [chunk] that no index reaches, because it is not a value of
    [i % of], gives a run without output: no file is read, whatever the
    bucket holds. *)
Theorem run_s3_no_part (path : string) (chunk of_ : Z) (keys : list s3_key) c :
  (0 < of_ ∧ (chunk < 0 ∨ of_ ≤ chunk) ∨
   of_ < 0 ∧ (0 < chunk ∨ chunk ≤ of_))%Z →
  ∃ c', run_s3 path chunk of_ keys c = (Returned (), c') ∧
        stdout c' = stdout c.
Proof.
  intros Hrange. rewrite print_stderr_run.
  destruct (run_s3_loop_returns path chunk of_ 0 keys
              (Console (console_log c) (stdout c)
                 (stderr c ++ ["Run " +:+ pretty chunk +:+ " of " +:+ pretty of_])))
    as (c' & Hrun & Hout & _).
  - lia.
  - by rewrite part_out_of_range.
  - exists c'. split; [done|].
    rewrite Hout, part_out_of_range by done. cbn. by rewrite app_nil_r.
Qed.
End ScanProperties.

(** ** The parts of a bucket *)

Section Parts.
Context {num : Type} `{!Number num} `{!Runtime num} `{!Platform}.

Lemma bind_nothing {A B} (l : list A) : l ≫= (λ _, @nil B) = [].
Proof. induction l as [|x l IH]; [done|]. by rewrite bind_cons, IH. Qed.

Lemma bind_app_perm {A B} (f g : A → list B) (l : list A) :
  l ≫= (λ x, f x ++ g x) ≡ₚ (l ≫= f) ++ (l ≫= g).
Proof.
  induction l as [|x l IH]; [done|]. rewrite !bind_cons, IH.
  rewrite <-!app_assoc. apply Permutation_app_head.
  rewrite !app_assoc. apply Permutation_app_tail, Permutation_app_comm.
Qed.

Lemma bind_bind {A B C} (f : A → list B) (g : B → list C) (l : list A) :
  (l ≫= f) ≫= g = l ≫= (λ x, f x ≫= g).
Proof.
  induction l as [|x l IH]; [done|]. by rewrite !bind_cons, bind_app, IH.
Qed.

Lemma one_chunk {A} (x : A) (m a n : nat) :
  a ≤ m < a + n →
  seq a n ≫= (λ chunk, if decide (chunk = m) then [x] else []) = [x].
Proof.
  revert a. induction n as [|n IH]; intros a Hm; [lia|].
  cbn [seq]. rewrite bind_cons. destruct (decide (a = m)) as [->|Hne].
  - rewrite (Forall_bind_ext _ (λ _, [])); [by rewrite bind_nothing|].
    apply Forall_forall. intros x' Hx'. apply elem_of_seq in Hx'.
    destruct (decide _); [lia|done].
  - cbn [app]. apply IH. lia.
Qed.

(** Every key is in exactly one of the parts 0, ..., [n - 1] of [n]. *)
Lemma parts_partition (n i : nat) (keys : list s3_key) :
  0 < n →
  seq 0 n ≫= (λ chunk, part (Z.of_nat chunk) (Z.of_nat n) i keys) ≡ₚ keys.
Proof.
  intros Hn. revert i. induction keys as [|key keys IH]; intros i.
  - cbn [part]. by rewrite bind_nothing.
  - rewrite (list_bind_ext _
      (λ chunk, (if decide (chunk = Z.to_nat (Z.of_nat i `mod` Z.of_nat n)%Z)
                 then [key] else [])
                ++ part (Z.of_nat chunk) (Z.of_nat n) (S i) keys)
      (seq 0 n) (seq 0 n)); [| |done].
    + rewrite bind_app_perm, IH, one_chunk; [done|].
      pose proof (Z.mod_pos_bound (Z.of_nat i) (Z.of_nat n)). lia.
    + intros chunk. cbn [part].
      pose proof (Z.mod_pos_bound (Z.of_nat i) (Z.of_nat n)).
      destruct (decide (_ = Z.of_nat chunk)%Z), (decide (chunk = _)); [done|lia..|done].
Qed.

Lemma part_all (i : nat) (keys : list s3_key) : part 0 1 i keys = keys.
Proof.
  revert i. induction keys as [|key keys IH]; intros i; [done|].
  cbn [part]. rewrite Z.mod_1_r. cbn. by rewrite IH.
Qed.

Lemma Forall_part (P : s3_key → Prop) (chunk of_ : Z) (i : nat)
    (keys : list s3_key) :
  Forall P keys → Forall P (part chunk of_ i keys).
Proof.
  intros Hkeys. revert i. induction Hkeys as [|key keys Hkey _ IH]; intros i.
  - constructor.
  - cbn [part]. destruct (decide _); [constructor|]; auto.
Qed.

(** X20. The parts share the work: when [check] returns on every file,
    the lines that the runs for [chunk] 0, ..., [of - 1] print are, taken
    together, the lines that a single run ([chunk] 0 of 1) prints, each as
    often, in another order. *)
Theorem run_s3_parts (path : string) (n : nat) (keys : list s3_key)
    (debug : bool) :
  0 < n →
  Forall (λ key, checkable (s3_checked path key)) keys →
  seq 0 n ≫= (λ chunk,
    stdout (run_s3 path (Z.of_nat chunk) (Z.of_nat n) keys (fresh debug)).2)
  ≡ₚ stdout (run_s3 path 0 1 keys (fresh debug)).2.
Proof.
  intros Hn Hok.
  assert (∀ chunk of_, of_ ≠ 0%Z →
    stdout (run_s3 path chunk of_ keys (fresh debug)).2
    = part chunk of_ 0 keys ≫= s3_lines path) as Hrun.
  { intros chunk of_ Hof. rewrite print_stderr_run.
    edestruct (run_s3_loop_returns path chunk of_ 0 keys) as (c' & -> & Hout & _);
      [done|by apply Forall_part|].
    cbn [snd]. by rewrite Hout. }
  rewrite (Hrun 0%Z 1%Z) by done. rewrite part_all.
  rewrite (list_bind_ext _
    (λ chunk, part (Z.of_nat chunk) (Z.of_nat n) 0 keys ≫= s3_lines path)
    (seq 0 n) (seq 0 n)); [| |done].
  - rewrite <-bind_bind. by rewrite parts_partition.
  - intros chunk. apply Hrun. lia.
Qed.
End Parts.

(** ** File names that end in [.json] *)

Section JsonNames.
#[local] Abbreviation list_of := String.list_ascii_of_string.

Lemma digit_after_marker (s pre : list ascii) (a : ascii) (tail root : list ascii) :
  s = pre ++ figure_marker ++ a :: tail →
  s = root ++ json_ext →
  in_class Digit a = true →
  Forall (λ a, in_class AnyChar a = true) s →
  figure_split s pre [a] tail.
Proof.
  intros Hs Hroot Ha Hline.
  assert (∃ mid, tail = mid ++ json_ext) as [mid ->].
  { assert ((pre ++ figure_marker ++ [a]) ++ tail = root ++ json_ext) as Heq
      by (by rewrite <-Hroot, Hs, <-!app_assoc).
    apply app_eq_app in Heq as [l [[Hl Hj]|[Hl Hj]]].
    - destruct l as [|b l _] using rev_ind.
      + exists []. by rewrite Hj.
      + exfalso. rewrite !app_assoc in Hl. apply app_inj_tail in Hl as [_ <-].
        assert (a ∈ json_ext) as Hin by (rewrite Hj; set_solver).
        unfold json_ext in Hin. cbn in Hin.
        repeat (apply elem_of_cons in Hin as [->|Hin];
                [vm_compute in Ha; discriminate Ha|]).
        by apply elem_of_nil in Hin.
    - by exists l. }
  repeat split; [done|done|by repeat constructor| |].
  - rewrite Hs in Hline. by apply Forall_app in Hline as [? _].
  - exists mid, []. split; [by rewrite app_nil_r|].
    rewrite Hs in Hline.
    apply Forall_app in Hline as [_ Hline].
    apply Forall_app in Hline as [_ Hline].
    apply Forall_cons in Hline as [_ Hline].
    by apply Forall_app in Hline as [? _].
Qed.

(** X21. For a file name on one line that ends in [.json], as the names
    that pass the extension test do, an identifier is found exactly when
    the name has [-Figure-] followed by a digit. *)
Theorem identifier_json_name (root : string) :
  one_line (root +:+ ".json") →
  is_Some (identifier (root +:+ ".json")) ↔
  ∃ pre a rest,
    root +:+ ".json" = pre +:+ "-Figure-" +:+ String a rest ∧
    in_class Digit a = true.
Proof.
  intros Hline. split.
  - intros [id Hid]. apply identifier_Some in Hid.
    rewrite (search_from_one_line _ Hline) in Hid.
    apply match_here_sound in Hid
      as (pre & d & rest & (Hs & Hd & Hds & _) & _ & _).
    destruct d as [|a d]; [done|]. apply Forall_cons in Hds as [Ha _].
    exists (String.string_of_list_ascii pre), a,
           (String.string_of_list_ascii (d ++ rest)).
    split; [|done].
    rewrite <-(of_to_list (root +:+ ".json")), Hs, !of_list_app.
    reflexivity.
  - intros (pre & a & rest & Hname & Ha).
    apply identifier_is_Some. rewrite (search_from_one_line _ Hline).
    apply (match_here_complete _ (list_of pre) [a] (list_of rest)).
    apply (digit_after_marker _ _ _ _ (list_of root)); [| |done|done].
    + by rewrite Hname, !to_list_app.
    + by rewrite to_list_app.
Qed.
End JsonNames.

(** ** The further properties on the examples *)

Section MoreExamples.
#[local] Existing Instance scan_runtime.
#[local] Existing Instance posix.

Lemma all_in_border_stops_empty_item :
  all_in_border (box_json (int_box 0 0 100 100))
    (JArr ((text_json <$> [plain_text (int_box 10 10 90 75)]) ++ [JObj ∅]))
  = Ok false.
Proof. apply all_in_border_stops. vm_compute. reflexivity. Defined.

Lemma all_in_border_missing_TextBB_second :
  all_in_border (box_json (int_box 0 0 100 100))
    (JArr ((text_json <$> [plain_text (int_box 10 1 30 4)]) ++ JObj ∅ :: []))
  = Err (KeyError (KStr "TextBB")).
Proof.
  apply all_in_border_missing_TextBB.
  - vm_compute. reflexivity.
  - reflexivity.
Defined.

Lemma all_in_border_fewer_strip :
  all_in_border (box_json (int_box 0 0 100 100))
    (texts_json [plain_text (int_box 10 1 30 4)]) = Ok true.
Proof.
  apply (all_in_border_fewer _ _
           [plain_text (int_box 10 1 30 4); plain_text (int_box 40 1 60 4)]).
  - intros t Ht. apply list_elem_of_singleton in Ht as ->. apply list_elem_of_here.
  - vm_compute. reflexivity.
Defined.

Lemma is_sum_larger_stops_empty_item :
  is_sum_larger (JNum (int 5000))
    (JArr ((text_json <$> [plain_text (int_box 10 10 90 75)]) ++ [JObj ∅]))
  = Ok true.
Proof. apply is_sum_larger_stops. vm_compute. reflexivity. Defined.

Lemma check_type_error_array :
  check array_text verbose = (Err TypeError, verbose).
Proof.
  apply (check_type_error array_text (JArr [JNum (int 1); JNum (int 2)])).
  - vm_compute. reflexivity.
  - left. intros m. discriminate.
Defined.

Lemma check_ignores_rest_empty_item :
  (check large_then_empty_text quiet).1 = Ok true.
Proof.
  apply (check_ignores_rest large_then_empty_text
           {["ImageBB" := box_json (int_box 0 0 100 100);
             "ImageText" := JArr [text_json (plain_text (int_box 10 10 90 75));
                                  JObj ∅]]}
           (int_box 0 0 100 100) [plain_text (int_box 10 10 90 75)] [JObj ∅]).
  - vm_compute. reflexivity.
  - vm_compute. reflexivity.
  - vm_compute. reflexivity.
  - vm_compute. reflexivity.
  - vm_compute. reflexivity.
Defined.

Lemma check_other_fields_words :
  check two_small_text verbose = check two_small_words_text verbose.
Proof.
  apply (check_other_fields two_small two_small_words).
  - vm_compute. reflexivity.
  - vm_compute. reflexivity.
  - reflexivity.
  - reflexivity.
Defined.

Lemma is_sum_larger_total_two_small :
  is_sum_larger (JNum (int 150)) (texts_json (ImageText two_small))
  = Ok (gtb (total_area (ImageText two_small)) (int 150)).
Proof.
  apply (is_sum_larger_total (int 150) (ImageText two_small)).
  repeat constructor; vm_compute; reflexivity.
Defined.



Lemma identifier_shape_two_lines :
  ∃ skipped pre d rest,
    two_line_name = skipped +:+ "b-Figure-7" +:+ rest ∧
    (skipped = EmptyString ∨
     ∃ before, skipped = before +:+ String newline EmptyString) ∧
    "b-Figure-7" = pre +:+ "-Figure-" +:+ d ∧ digit_run d ∧
    one_line "b-Figure-7" ∧
    no_leading_digit rest ∧ has_json_suffix_text rest.
Proof. apply identifier_shape. vm_compute. reflexivity. Defined.

Lemma identifier_longest_twice :
  String.length ("x" +:+ "-Figure-" +:+ "1")
  ≤ String.length "x-Figure-1-Figure-22".
Proof.
  apply (identifier_longest "x-Figure-1-Figure-22.json" _ "x" "1" "-Figure-22.json").
  - unfold one_line. vm_compute. repeat constructor.
  - vm_compute. reflexivity.
  - reflexivity.
  - split; [done|]. vm_compute. repeat constructor.
  - exists "-Figure-22", EmptyString. reflexivity.
Defined.

Lemma identifier_round_trip_thumbnail :
  identifier ("paper123-Figure-7" +:+ ".json") = Some "paper123-Figure-7".
Proof.
  apply (identifier_round_trip "paper123-Figure-7-thumbnail.json").
  vm_compute. reflexivity.
Defined.

Lemma identifier_json_name_chart :
  is_Some (identifier ("s-Figure-4-x" +:+ ".json")) ↔
  ∃ pre a rest,
    "s-Figure-4-x" +:+ ".json" = pre +:+ "-Figure-" +:+ String a rest ∧
    in_class Digit a = true.
Proof.
  apply identifier_json_name. unfold one_line. vm_compute. repeat constructor.
Defined.

Lemma figures_checkable :
  Forall (λ e, checkable (local_checked e)) figures.
Proof. repeat constructor; vm_compute; try done; by eexists. Qed.

Lemma run_local_prints_figures :
  ∃ c', run_local figures (fresh false) = (Returned (), c') ∧
        stdout c' = stdout (fresh false) ++ (figures ≫= local_lines) ∧
        stderr c' = stderr (fresh false).
Proof. apply run_local_prints, figures_checkable. Defined.

Lemma run_local_aborts_broken :
  ∃ c', run_local (figures ++ broken :: late) (fresh false)
        = (Failed (Raised ValueError), c') ∧
        stdout c' = stdout (fresh false) ++ (figures ≫= local_lines) ∧
        stderr c' = stderr (fresh false).
Proof.
  apply (run_local_aborts figures late broken not_json_text).
  - apply figures_checkable.
  - vm_compute. reflexivity.
  - vm_compute. reflexivity.
Defined.

Lemma bucket_checkable :
  Forall (λ key, checkable (s3_checked "figs" key)) bucket_keys.
Proof. repeat constructor; vm_compute; try done; by eexists. Qed.

Lemma run_s3_prints_odd :
  ∃ c', run_s3 "figs" 1 2 bucket_keys (fresh false) = (Returned (), c') ∧
        stdout c' = stdout (fresh false) ++ (part 1 2 0 bucket_keys ≫= s3_lines "figs") ∧
        stderr c' = stderr (fresh false) ++ ["Run " +:+ pretty 1%Z +:+ " of " +:+ pretty 2%Z].
Proof.
  apply run_s3_prints; [done|].
  apply Forall_part, bucket_checkable.
Defined.

Lemma run_s3_no_part_two_of_two :
  ∃ c', run_s3 "figs" 2 2 bucket_keys (fresh false) = (Returned (), c') ∧
        stdout c' = stdout (fresh false).
Proof. apply run_s3_no_part. lia. Defined.

Lemma run_s3_parts_two :
  seq 0 2 ≫= (λ chunk,
    stdout (run_s3 "figs" (Z.of_nat chunk) (Z.of_nat 2) bucket_keys (fresh false)).2)
  ≡ₚ stdout (run_s3 "figs" 0 1 bucket_keys (fresh false)).2.
Proof. apply run_s3_parts; [lia|apply bucket_checkable]. Defined.
End MoreExamples.
